(** * fan-club-front: the authentication session manager (AuthContext)

    A shallow embedding of [AuthProvider]: the two [useState] initialisers
    that read [localStorage], the two persistence effects, [login], [signup]
    and [logout], together with the JavaScript primitives the code relies on
    (property access, truthiness, [??], [String(...)], [JSON.stringify],
    [JSON.parse], [localStorage], [fetch]).

    Modelling conventions:
    - a JavaScript value that flows through the code is a [json] value;
      [undefined], which only arises from reading a missing property, is the
      [None] of [option json];
    - numbers are the integers ([Z]), printed in decimal; strings are
      sequences of 8-bit code units;
    - an object is the list of its own properties in insertion order; a
      JavaScript object has no duplicate property names (predicate [wf]);
    - a thrown [Error] is represented by its [message];
    - asynchronous code is run to completion: [await] is sequencing in a
      monad of state and exceptions;
    - the backend is a function from requests to fetch outcomes, and every
      request issued is appended to a log kept in the state. *)

From Stdlib Require Import ZArith String Ascii List Bool Lia DecimalFacts DecimalZ.
From stdpp Require Import base option list strings gmap.

Set Warnings "-register-all".
Local Open Scope string_scope.
Local Open Scope Z_scope.

(** ** Outcomes and the state-and-exception monad *)

Inductive outcome (A : Type) : Type :=
| Ret (a : A)
| Throw (message : string).
Arguments Ret {A} a.
Arguments Throw {A} message.

(** A computation over a mutable state [S]; as in JavaScript, the state
    changes made before a [throw] survive it. *)
Definition M (S A : Type) : Type := S -> outcome A * S.

Definition ret {S A} (a : A) : M S A := fun s => (Ret a, s).
Definition throw {S A} (e : string) : M S A := fun s => (Throw e, s).
Definition lift {S A} (o : outcome A) : M S A := fun s => (o, s).
Definition bind {S A B} (c : M S A) (k : A -> M S B) : M S B :=
  fun s => match c s with
           | (Ret a, s') => k a s'
           | (Throw e, s') => (Throw e, s')
           end.
(** [try { c } catch (err) { h (err.message) }] *)
Definition try_catch {S A} (c : M S A) (h : string -> M S A) : M S A :=
  fun s => match c s with
           | (Ret a, s') => (Ret a, s')
           | (Throw e, s') => h e s'
           end.

Declare Scope js_scope.
Delimit Scope js_scope with js.
Notation "'let*' x ':=' c 'in' k" := (bind c (fun x => k))
  (at level 10, x name, c at level 100, k at level 200) : js_scope.
Notation "c ';;' k" := (bind c (fun _ => k))
  (at level 100, k at level 200, right associativity) : js_scope.
Local Open Scope js_scope.

(** ** JavaScript values *)

Inductive json : Type :=
| JNull
| JBool (b : bool)
| JNum (n : Z)
| JStr (s : string)
| JArr (items : list json)
| JObj (members : list (string * json)).

(** [v ? _ : _], [if (v)] *)
Definition truthy (v : json) : bool :=
  match v with
  | JNull => false
  | JBool b => b
  | JNum n => negb (n =? 0)
  | JStr s => negb (String.eqb s EmptyString)
  | JArr _ | JObj _ => true
  end.

(** Truthiness of the result of a property read ([undefined] is falsy). *)
Definition truthy_opt (v : option json) : bool :=
  match v with
  | None => false
  | Some x => truthy x
  end.

Fixpoint assoc (k : string) (l : list (string * json)) : option json :=
  match l with
  | [] => None
  | (k', v) :: r => if String.eqb k k' then Some v else assoc k r
  end.

(** The message of the [TypeError] raised by a property read on [null]
    (the exact wording is engine specific). *)
Definition type_error (k : string) : string :=
  "Cannot read properties of null (reading '" +:+ k +:+ "')".

(** [v.k] for the field names the code uses ([access], [token],
    [auth_token], [user], [username], [detail], [non_field_errors]): none of
    them is defined on the prototypes of primitives or arrays, so only an
    object can answer; reading a property of [null] throws. *)
Definition get (v : json) (k : string) : outcome (option json) :=
  match v with
  | JNull => Throw (type_error k)
  | JObj l => Ret (assoc k l)
  | _ => Ret None
  end.

(** [a ?? b] with [b] evaluated only when [a] is [null] or [undefined]. *)
Definition nullish_or {S} (a : option json) (b : M S (option json)) : M S (option json) :=
  match a with
  | None | Some JNull => b
  | Some _ => ret a
  end.

(** A value that is neither [null] nor [undefined] converted to the state's
    representation, where [null] stands for "absent". *)
Definition or_null (a : option json) : json :=
  match a with
  | None => JNull
  | Some v => v
  end.

(** ** Decimal numerals *)

Fixpoint print_uint (u : Decimal.uint) (k : string) : string :=
  match u with
  | Decimal.Nil => k
  | Decimal.D0 u => String "0" (print_uint u k)
  | Decimal.D1 u => String "1" (print_uint u k)
  | Decimal.D2 u => String "2" (print_uint u k)
  | Decimal.D3 u => String "3" (print_uint u k)
  | Decimal.D4 u => String "4" (print_uint u k)
  | Decimal.D5 u => String "5" (print_uint u k)
  | Decimal.D6 u => String "6" (print_uint u k)
  | Decimal.D7 u => String "7" (print_uint u k)
  | Decimal.D8 u => String "8" (print_uint u k)
  | Decimal.D9 u => String "9" (print_uint u k)
  end.

(** Number-to-string conversion of an integer, prepended to [k]. *)
Definition print_num (n : Z) (k : string) : string :=
  match Z.to_int n with
  | Decimal.Pos u => print_uint u k
  | Decimal.Neg u => String "-" (print_uint u k)
  end.

Definition digit_of (c : ascii) : option (Decimal.uint -> Decimal.uint) :=
  if Ascii.eqb c "0" then Some Decimal.D0
  else if Ascii.eqb c "1" then Some Decimal.D1
  else if Ascii.eqb c "2" then Some Decimal.D2
  else if Ascii.eqb c "3" then Some Decimal.D3
  else if Ascii.eqb c "4" then Some Decimal.D4
  else if Ascii.eqb c "5" then Some Decimal.D5
  else if Ascii.eqb c "6" then Some Decimal.D6
  else if Ascii.eqb c "7" then Some Decimal.D7
  else if Ascii.eqb c "8" then Some Decimal.D8
  else if Ascii.eqb c "9" then Some Decimal.D9
  else None.

(** The longest prefix of digits, and what follows it. *)
Fixpoint read_uint (s : string) : Decimal.uint * string :=
  match s with
  | EmptyString => (Decimal.Nil, s)
  | String c r =>
      match digit_of c with
      | Some d => let (u, r') := read_uint r in (d u, r')
      | None => (Decimal.Nil, s)
      end
  end.

(** A numeral is accepted when it has at least one digit and no superfluous
    leading zero. *)
Definition numeral_ok (u : Decimal.uint) : bool :=
  Decimal.uint_beq (Decimal.unorm u) u.

Definition read_num (s : string) : option (Z * string) :=
  match s with
  | String "-" r =>
      let (u, r') := read_uint r in
      if numeral_ok u then Some (Z.of_int (Decimal.Neg u), r') else None
  | _ =>
      let (u, r') := read_uint s in
      if numeral_ok u then Some (Z.of_int (Decimal.Pos u), r') else None
  end.

(** ** String literals *)

Definition dquote : ascii := "034"%char.

Definition hex_digit (n : N) : ascii :=
  if (n <? 10)%N then ascii_of_N (48 + n) else ascii_of_N (87 + n).

Definition hex_value (c : ascii) : option N :=
  let n := N_of_ascii c in
  if ((48 <=? n) && (n <=? 57))%N then Some (n - 48)%N
  else if ((97 <=? n) && (n <=? 102))%N then Some (n - 87)%N
  else if ((65 <=? n) && (n <=? 70))%N then Some (n - 55)%N
  else None.

(** [JSON.stringify] of one code unit inside a string literal. *)
Definition print_char (c : ascii) (k : string) : string :=
  if Ascii.eqb c dquote then String "\" (String dquote k)
  else if Ascii.eqb c "\" then String "\" (String "\" k)
  else if Ascii.eqb c "008" then String "\" (String "b" k)
  else if Ascii.eqb c "012" then String "\" (String "f" k)
  else if Ascii.eqb c "010" then String "\" (String "n" k)
  else if Ascii.eqb c "013" then String "\" (String "r" k)
  else if Ascii.eqb c "009" then String "\" (String "t" k)
  else if (N_of_ascii c <? 32)%N then
    String "\" (String "u" (String "0" (String "0"
      (String (hex_digit (N_of_ascii c / 16))
         (String (hex_digit (N_of_ascii c mod 16)) k)))))
  else String c k.

Fixpoint print_chars (s : string) (k : string) : string :=
  match s with
  | EmptyString => k
  | String c r => print_char c (print_chars r k)
  end.

Definition print_str (s : string) (k : string) : string :=
  String dquote (print_chars s (String dquote k)).

Definition cons_char (c : ascii) (r : option (string * string)) : option (string * string) :=
  match r with
  | Some (s, rest) => Some (String c s, rest)
  | None => None
  end.

(** The body of a string literal up to its closing quote. An escape
    [\uXXXX] above [ÿ] is outside the modelled code units. *)
Fixpoint read_chars (s : string) : option (string * string) :=
  match s with
  | EmptyString => None
  | String c r =>
      if Ascii.eqb c dquote then Some (EmptyString, r)
      else if Ascii.eqb c "\" then
        match r with
        | EmptyString => None
        | String e r1 =>
            if Ascii.eqb e dquote then cons_char dquote (read_chars r1)
            else if Ascii.eqb e "\" then cons_char "\" (read_chars r1)
            else if Ascii.eqb e "/" then cons_char "/" (read_chars r1)
            else if Ascii.eqb e "b" then cons_char "008" (read_chars r1)
            else if Ascii.eqb e "f" then cons_char "012" (read_chars r1)
            else if Ascii.eqb e "n" then cons_char "010" (read_chars r1)
            else if Ascii.eqb e "r" then cons_char "013" (read_chars r1)
            else if Ascii.eqb e "t" then cons_char "009" (read_chars r1)
            else if Ascii.eqb e "u" then
              match r1 with
              | String h1 (String h2 (String h3 (String h4 r2))) =>
                  match hex_value h1, hex_value h2, hex_value h3, hex_value h4 with
                  | Some a, Some b, Some c', Some d =>
                      if ((a =? 0) && (b =? 0))%N
                      then cons_char (ascii_of_N (16 * c' + d)) (read_chars r2)
                      else None
                  | _, _, _, _ => None
                  end
              | _ => None
              end
            else None
        end
      else if (N_of_ascii c <? 32)%N then None
      else cons_char c (read_chars r)
  end.

(** ** [JSON.stringify] *)

Section Printers.

Variable pr : json -> string -> string.

(** The elements after the first one, and the closing bracket. *)
Fixpoint print_elements (l : list json) (k : string) : string :=
  match l with
  | [] => String "]" k
  | y :: ys => String "," (pr y (print_elements ys k))
  end.

Definition print_member (key : string) (x : json) (k : string) : string :=
  print_str key (String ":" (pr x k)).

(** The members after the first one, and the closing brace. *)
Fixpoint print_members (l : list (string * json)) (k : string) : string :=
  match l with
  | [] => String "}" k
  | (key, y) :: ys => String "," (print_member key y (print_members ys k))
  end.

End Printers.

(** [print v k] is the JSON text of [v] followed by [k]. *)
Fixpoint print (v : json) (k : string) : string :=
  match v with
  | JNull => "null" +:+ k
  | JBool true => "true" +:+ k
  | JBool false => "false" +:+ k
  | JNum n => print_num n k
  | JStr s => print_str s k
  | JArr l =>
      String "["
        (match l with
         | [] => String "]" k
         | x :: xs => print x (print_elements print xs k)
         end)
  | JObj l =>
      String "{"
        (match l with
         | [] => String "}" k
         | (key, x) :: xs => print_member print key x (print_members print xs k)
         end)
  end.

Definition JSON_stringify (v : json) : string := print v EmptyString.

(** ** [String(v)] *)

Fixpoint join_with (sep : string) (l : list string) : string :=
  match l with
  | [] => EmptyString
  | [x] => x
  | x :: r => x +:+ sep +:+ join_with sep r
  end.

Fixpoint to_String (v : json) : string :=
  match v with
  | JNull => "null"
  | JBool true => "true"
  | JBool false => "false"
  | JNum n => print_num n EmptyString
  | JStr s => s
  | JArr l =>
      join_with ","
        (map (fun x => match x with JNull => EmptyString | _ => to_String x end) l)
  | JObj _ => "[object Object]"
  end.

(** ** [JSON.parse] *)

Definition is_ws (c : ascii) : bool :=
  Ascii.eqb c " " || Ascii.eqb c "009" || Ascii.eqb c "010" || Ascii.eqb c "013".

Fixpoint skip_ws (s : string) : string :=
  match s with
  | EmptyString => s
  | String c r => if is_ws c then skip_ws r else s
  end.

Fixpoint strip_prefix (p s : string) : option string :=
  match p with
  | EmptyString => Some s
  | String a p' =>
      match s with
      | EmptyString => None
      | String b s' => if Ascii.eqb a b then strip_prefix p' s' else None
      end
  end.

(** Skip white space and consume the punctuation [c] if it comes next. *)
Definition next_is (c : ascii) (s : string) : option string :=
  match skip_ws s with
  | String c' r => if Ascii.eqb c' c then Some r else None
  | EmptyString => None
  end.

Definition has_key (k : string) (l : list (string * json)) : bool :=
  match assoc k l with
  | Some _ => true
  | None => false
  end.

(** Defining property [k] of an object under construction: an existing
    property keeps its position and takes the new value. *)
Fixpoint obj_set (k : string) (v : json) (l : list (string * json)) : list (string * json) :=
  match l with
  | [] => [(k, v)]
  | (k', v') :: r => if String.eqb k k' then (k, v) :: r else (k', v') :: obj_set k v r
  end.

(** Recursive descent with a bound [n] on the nesting of calls; [elements]
    and [members] are entered after the opening bracket when the closing one
    does not follow at once, and carry what was read so far. *)
Fixpoint parse_value (n : nat) (s : string) : option (json * string) :=
  match n with
  | O => None
  | S n' =>
      match skip_ws s with
      | EmptyString => None
      | String c r =>
          if Ascii.eqb c "{" then
            match next_is "}" r with
            | Some r' => Some (JObj [], r')
            | None => parse_members n' r []
            end
          else if Ascii.eqb c "[" then
            match next_is "]" r with
            | Some r' => Some (JArr [], r')
            | None => parse_elements n' r []
            end
          else if Ascii.eqb c dquote then
            match read_chars r with
            | Some (str, r') => Some (JStr str, r')
            | None => None
            end
          else if Ascii.eqb c "t" then
            match strip_prefix "rue" r with
            | Some r' => Some (JBool true, r')
            | None => None
            end
          else if Ascii.eqb c "f" then
            match strip_prefix "alse" r with
            | Some r' => Some (JBool false, r')
            | None => None
            end
          else if Ascii.eqb c "n" then
            match strip_prefix "ull" r with
            | Some r' => Some (JNull, r')
            | None => None
            end
          else
            match read_num (String c r) with
            | Some (z, r') => Some (JNum z, r')
            | None => None
            end
      end
  end
with parse_elements (n : nat) (s : string) (acc : list json) : option (json * string) :=
  match n with
  | O => None
  | S n' =>
      match parse_value n' s with
      | Some (v, r) =>
          match next_is "," r with
          | Some r' => parse_elements n' r' (acc ++ [v])
          | None =>
              match next_is "]" r with
              | Some r' => Some (JArr (acc ++ [v]), r')
              | None => None
              end
          end
      | None => None
      end
  end
with parse_members (n : nat) (s : string) (acc : list (string * json)) : option (json * string) :=
  match n with
  | O => None
  | S n' =>
      match next_is dquote s with
      | Some r =>
          match read_chars r with
          | Some (key, r1) =>
              match next_is ":" r1 with
              | Some r2 =>
                  match parse_value n' r2 with
                  | Some (v, r3) =>
                      match next_is "," r3 with
                      | Some r4 => parse_members n' r4 (obj_set key v acc)
                      | None =>
                          match next_is "}" r3 with
                          | Some r4 => Some (JObj (obj_set key v acc), r4)
                          | None => None
                          end
                      end
                  | None => None
                  end
              | None => None
              end
          | None => None
          end
      | None => None
      end
  end.

(** The message of the [SyntaxError] of [JSON.parse] (engine specific). *)
Definition syntax_error : string := "Unexpected token in JSON".

Definition JSON_parse (s : string) : outcome json :=
  match parse_value (S (String.length s)) s with
  | Some (v, r) =>
      match skip_ws r with
      | EmptyString => Ret v
      | _ => Throw syntax_error
      end
  | None => Throw syntax_error
  end.

(** Objects without duplicate property names. *)
Fixpoint uniq (l : list (string * json)) : bool :=
  match l with
  | [] => true
  | (k, _) :: r => negb (has_key k r) && uniq r
  end.

(** Well-formed values: every object in them has distinct property names. *)
Fixpoint wf (v : json) : bool :=
  match v with
  | JArr l => forallb wf l
  | JObj l => uniq l && forallb (fun kv => wf (snd kv)) l
  | _ => true
  end.

(** ** [localStorage] *)

(** The storage of the page. [accessible = false] stands for a browser that
    denies access, where every call throws; [full = true] for a storage whose
    quota is exhausted, where [setItem] throws. *)
Record Storage : Type := {
  accessible : bool;
  full : bool;
  items : gmap string string
}.

Definition storage_denied : string := "The operation is insecure.".
Definition quota_exceeded : string := "The quota has been exceeded.".

Definition getItem (k : string) : M Storage (option string) :=
  fun st => if accessible st then (Ret (items st !! k), st)
            else (Throw storage_denied, st).

Definition setItem (k v : string) : M Storage unit :=
  fun st => if accessible st then
              if full st then (Throw quota_exceeded, st)
              else (Ret tt, {| accessible := true; full := false;
                               items := <[k := v]> (items st) |})
            else (Throw storage_denied, st).

Definition removeItem (k : string) : M Storage unit :=
  fun st => if accessible st
            then (Ret tt, {| accessible := true; full := full st;
                             items := delete k (items st) |})
            else (Throw storage_denied, st).

Definition TOKEN_KEY : string := "auth_token".
Definition USER_KEY : string := "auth_user".

(** ** Session state *)

Record credentials : Type := {
  username : string;
  password : string
}.

Record request : Type := {
  url : string;
  method : string;
  content_type : string;
  body : string
}.

(** A [Response]: its status, and what [res.json()] and [res.text()] give
    when the code awaits them. The two are independent fields so that every
    platform behaviour is covered, including the one-shot body of the Fetch
    standard, where [res.text()] throws once [res.json()] was attempted. *)
Record response : Type := {
  status : Z;
  res_json : outcome json;
  res_text : outcome string
}.

(** [res.ok] *)
Definition ok (r : response) : bool := (200 <=? status r) && (status r <=? 299).

Inductive fetch_outcome : Type :=
| Responds (r : response)
| Fails (message : string).

(** The React state of [AuthProvider] ([null] is [JNull]) and the log of the
    requests sent so far. *)
Record state : Type := {
  token : json;
  user : json;
  requests : list request
}.

Definition setToken (t : json) : M state unit :=
  fun s => (Ret tt, {| token := t; user := user s; requests := requests s |}).

Definition setUser (u : json) : M state unit :=
  fun s => (Ret tt, {| token := token s; user := u; requests := requests s |}).

(** *** State read on initialisation *)

Definition init_token : M Storage json :=
  try_catch
    (let* raw := getItem TOKEN_KEY in
     ret (match raw with Some t => JStr t | None => JNull end))
    (fun _ => ret JNull).

Definition init_user : M Storage json :=
  try_catch
    (let* raw := getItem USER_KEY in
     match raw with
     | Some r => if negb (String.eqb r EmptyString) then lift (JSON_parse r) else ret JNull
     | None => ret JNull
     end)
    (fun _ => ret JNull).

(** Both [useState] initialisers, in order. *)
Definition AuthProvider_init : M Storage (json * json) :=
  let* t := init_token in
  let* u := init_user in
  ret (t, u).

(** *** Persistence effects *)

Definition effect_token (t : json) : M Storage unit :=
  try_catch
    (if truthy t then setItem TOKEN_KEY (to_String t) else removeItem TOKEN_KEY)
    (fun _ => ret tt).

Definition effect_user (u : json) : M Storage unit :=
  try_catch
    (if truthy u then setItem USER_KEY (JSON_stringify u) else removeItem USER_KEY)
    (fun _ => ret tt).

(** Both effects, as run after a render that changed [token] and [user]. *)
Definition persist (t u : json) : M Storage unit :=
  effect_token t ;; effect_user u.

(** [if (v) a else b] on the result of a property read. *)
Definition if_truthy {X} (v : option json) (a : json -> X) (b : X) : X :=
  match v with
  | Some x => if truthy x then a x else b
  | None => b
  end.

(** How one iteration of the candidate loop ends. *)
Inductive ctl : Type :=
| Continue (lastError : option string)
| Return.

Definition login_endpoints : list string :=
  ["/api/auth/token/"; "/api/auth/login/"; "/api/auth/token/obtain/"].

Definition signup_endpoints : list string :=
  ["/api/auth/signup/"; "/api/auth/register/"].

Definition creds_json (creds : credentials) : json :=
  JObj [("username", JStr (username creds)); ("password", JStr (password creds))].

Definition post (endpoint : string) (creds : credentials) : request :=
  {| url := endpoint; method := "POST"; content_type := "application/json";
     body := JSON_stringify (creds_json creds) |}.

Section AuthProvider.

(** The backend the page talks to. *)
Variable backend : request -> fetch_outcome.

(** [await fetch(endpoint, { method: "POST", ... })] *)
Definition fetch (endpoint : string) (creds : credentials) : M state response :=
  fun s =>
    let s' := {| token := token s; user := user s;
                 requests := requests s ++ [post endpoint creds] |} in
    match backend (post endpoint creds) with
    | Responds r => (Ret r, s')
    | Fails e => (Throw e, s')
    end.

(** [data.access ?? data.token ?? data.auth_token ?? null] *)
Definition extract_token (data : json) : M state (option json) :=
  let* a := lift (get data "access") in
  nullish_or a
    (let* b := lift (get data "token") in
     nullish_or b
       (let* c := lift (get data "auth_token") in
        nullish_or c (ret (Some JNull)))).

(** [data.user ?? (data.username ? { username: data.username } : null)] *)
Definition extract_user (data : json) : M state (option json) :=
  let* a := lift (get data "user") in
  nullish_or a
    (let* n := lift (get data "username") in
     ret (if_truthy n (fun x => Some (JObj [("username", x)])) (Some JNull))).

(** The success path shared by [login] and [signup]. *)
Definition commit (res : response) (creds : credentials) : M state ctl :=
  let* data := lift (res_json res) in
  let* t := extract_token data in
  let* u := extract_user data in
  setToken (or_null t) ;;
  let* u' := nullish_or u (ret (Some (JObj [("username", JStr (username creds))]))) in
  setUser (or_null u') ;;
  ret Return.

(** The body of the [for] loop of [login]. *)
Definition login_attempt (creds : credentials) (endpoint : string)
    (lastError : option string) : M state ctl :=
  try_catch
    (let* res := fetch endpoint creds in
     if negb (ok res) then
       if status res =? 404 then ret (Continue (Some ("Not found: " +:+ endpoint)))
       else
         try_catch
           (let* j := lift (res_json res) in
            let* detail := lift (get j "detail") in
            if_truthy detail
              (fun d => ret (Continue (Some (to_String d))))
              (let* nfe := lift (get j "non_field_errors") in
               if_truthy nfe
                 (fun e => ret (Continue (Some (JSON_stringify e))))
                 (ret (Continue (Some (JSON_stringify j))))))
           (fun _ =>
              try_catch
                (let* t := lift (res_text res) in
                 if negb (String.eqb t EmptyString) then ret (Continue (Some t))
                 else ret (Continue lastError))
                (fun _ => ret (Continue lastError)))
     else commit res creds)
    (fun e => ret (Continue (Some e))).

Fixpoint login_loop (creds : credentials) (endpoints : list string)
    (lastError : option string) : M state unit :=
  match endpoints with
  | [] => throw (match lastError with Some e => e | None => "Login failed" end)
  | endpoint :: rest =>
      let* c := login_attempt creds endpoint lastError in
      match c with
      | Return => ret tt
      | Continue lastError' => login_loop creds rest lastError'
      end
  end.

Definition login (creds : credentials) : M state unit :=
  login_loop creds login_endpoints None.

(** The body of the [for] loop of [signup]. *)
Definition signup_attempt (creds : credentials) (endpoint : string)
    (lastError : option string) : M state ctl :=
  try_catch
    (let* res := fetch endpoint creds in
     if negb (ok res) then
       if status res =? 404 then ret (Continue (Some ("Not found: " +:+ endpoint)))
       else
         try_catch
           (let* j := lift (res_json res) in
            let* detail := lift (get j "detail") in
            if_truthy detail
              (fun d => ret (Continue (Some (to_String d))))
              (ret (Continue (Some (JSON_stringify j)))))
           (fun _ =>
              let* t := lift (res_text res) in
              if negb (String.eqb t EmptyString) then ret (Continue (Some t))
              else ret (Continue (Some ("HTTP " +:+ print_num (status res) EmptyString))))
     else commit res creds)
    (fun e => ret (Continue (Some e))).

Fixpoint signup_loop (creds : credentials) (endpoints : list string)
    (lastError : option string) : M state unit :=
  match endpoints with
  | [] => throw (match lastError with Some e => e | None => "Signup failed" end)
  | endpoint :: rest =>
      let* c := signup_attempt creds endpoint lastError in
      match c with
      | Return => ret tt
      | Continue lastError' => signup_loop creds rest lastError'
      end
  end.

Definition signup (creds : credentials) : M state unit :=
  signup_loop creds signup_endpoints None.

End AuthProvider.

Definition logout : M state unit :=
  setToken JNull ;; setUser JNull.


(** ** Auxiliary notions for the properties of the codec *)

Definition starts_with_digit (k : string) : bool :=
  match k with
  | String c _ => match digit_of c with Some _ => true | None => false end
  | EmptyString => false
  end.

(** The characters a printed value can start with. *)
Definition value_start (c : ascii) : bool :=
  Ascii.eqb c "{" || Ascii.eqb c "[" || Ascii.eqb c dquote || Ascii.eqb c "t"
  || Ascii.eqb c "f" || Ascii.eqb c "n" || Ascii.eqb c "-"
  || match digit_of c with Some _ => true | None => false end.

Definition num_start (c : ascii) : bool :=
  Ascii.eqb c "-" || match digit_of c with Some _ => true | None => false end.

(** A bound on the depth of calls that parsing the text of [v] needs. *)
Fixpoint size (v : json) : nat :=
  match v with
  | JArr l => S (list_sum (map (fun x => S (size x)) l))
  | JObj l => S (list_sum (map (fun kv => S (size (snd kv))) l))
  | _ => 1
  end.

(** Induction on values with the hypothesis for every element of an array
    and every member of an object. *)
Section json_induction.
Variable P : json -> Prop.
Hypothesis Hnull : P JNull.
Hypothesis Hbool : forall b, P (JBool b).
Hypothesis Hnum : forall n, P (JNum n).
Hypothesis Hstr : forall s, P (JStr s).
Hypothesis Harr : forall l, Forall P l -> P (JArr l).
Hypothesis Hobj : forall l, Forall (fun kv => P (snd kv)) l -> P (JObj l).

Fixpoint json_induction (v : json) : P v :=
  match v with
  | JNull => Hnull
  | JBool b => Hbool b
  | JNum n => Hnum n
  | JStr s => Hstr s
  | JArr l =>
      Harr l ((fix all (l : list json) : Forall P l :=
                 match l with
                 | [] => @List.Forall_nil _ P
                 | x :: r => @List.Forall_cons _ P x r (json_induction x) (all r)
                 end) l)
  | JObj l =>
      Hobj l ((fix all (l : list (string * json)) : Forall (fun kv => P (snd kv)) l :=
                 match l with
                 | [] => @List.Forall_nil _ _
                 | kv :: r => @List.Forall_cons _ _ kv r (json_induction (snd kv)) (all r)
                 end) l)
  end.
End json_induction.

(** [v] is read back from its text, whatever follows it (a digit apart, which
    would extend a number). *)
Definition parses (v : json) : Prop :=
  wf v = true ->
  forall n k, (size v <= n)%nat -> starts_with_digit k = false ->
  parse_value n (print v k) = Some (v, k).

(** ** The contract of one candidate attempt, in the words of the
    specification *)

(** Reading a field of a response body that is not [null]. *)
Definition field (v : json) (k : string) : option json :=
  match v with
  | JObj l => assoc k l
  | _ => None
  end.

(** A field is present when it is neither missing nor [null]. *)
Definition present (v : option json) : bool :=
  match v with
  | None | Some JNull => false
  | Some _ => true
  end.

(** The token of a success body: [access], then [token], then [auth_token],
    the first one present winning; absent ([null]) when none is. *)
Definition token_of (data : json) : json :=
  if present (field data "access") then or_null (field data "access")
  else if present (field data "token") then or_null (field data "token")
  else if present (field data "auth_token") then or_null (field data "auth_token")
  else JNull.

(** The user record of a success body: its [user] field if present,
    otherwise a record synthesized from its [username] field, otherwise a
    record synthesized from the submitted username. *)
Definition user_of (data : json) (creds : credentials) : json :=
  if present (field data "user") then or_null (field data "user")
  else if truthy_opt (field data "username")
       then JObj [("username", or_null (field data "username"))]
       else JObj [("username", JStr (username creds))].

(** The body of a response that ends the loop: a successful status whose
    JSON body can be read and is not [null]. *)
Definition winner (o : fetch_outcome) : option json :=
  match o with
  | Responds r =>
      if ok r then
        match res_json r with
        | Ret JNull => None
        | Ret data => Some data
        | Throw _ => None
        end
      else None
  | Fails _ => None
  end.

(** The state after the request to [endpoint] was sent. *)
Definition sent (endpoint : string) (creds : credentials) (s : state) : state :=
  {| token := token s; user := user s;
     requests := requests s ++ [post endpoint creds] |}.

(** The state a winning body [data] commits. *)
Definition committed (data : json) (creds : credentials) (s : state) : state :=
  {| token := token_of data; user := user_of data creds; requests := requests s |}.

(** The message of a successful status whose body cannot be used. *)
Definition unusable_body (r : response) : option string :=
  match res_json r with
  | Throw e => Some e
  | Ret _ => Some (type_error "access")
  end.

(** The message [login] records for a candidate that does not win, if it
    records one. *)
Definition login_records (endpoint : string) (o : fetch_outcome) : option string :=
  match o with
  | Fails e => Some e
  | Responds r =>
      if ok r then unusable_body r
      else if status r =? 404 then Some ("Not found: " +:+ endpoint)
      else
        match res_json r with
        | Ret (JObj l) =>
            if truthy_opt (assoc "detail" l)
            then Some (to_String (or_null (assoc "detail" l)))
            else if truthy_opt (assoc "non_field_errors" l)
                 then Some (JSON_stringify (or_null (assoc "non_field_errors" l)))
                 else Some (JSON_stringify (JObj l))
        | Ret JNull | Throw _ =>
            match res_text r with
            | Ret t => if String.eqb t EmptyString then None else Some t
            | Throw _ => None
            end
        | Ret j => Some (JSON_stringify j)
        end
  end.

(** The message [signup] records for an unsuccessful response other than
    404: [String(detail)], else the entire parsed body; when the body cannot
    be read as JSON, the raw text, [HTTP <status>] when the text is empty,
    and the error's message when the text cannot be read either. *)
Definition signup_error_message (r : response) : string :=
  match res_json r with
  | Ret (JObj l) =>
      if truthy_opt (assoc "detail" l)
      then to_String (or_null (assoc "detail" l))
      else JSON_stringify (JObj l)
  | Ret JNull | Throw _ =>
      match res_text r with
      | Ret t => if String.eqb t EmptyString
                 then "HTTP " +:+ print_num (status r) EmptyString
                 else t
      | Throw e => e
      end
  | Ret j => JSON_stringify j
  end.

(** The message [signup] records for a candidate that does not win; it
    always records one. *)
Definition signup_message (endpoint : string) (o : fetch_outcome) : string :=
  match o with
  | Fails e => e
  | Responds r =>
      if ok r then
        match res_json r with
        | Throw e => e
        | Ret _ => type_error "access"
        end
      else if status r =? 404 then "Not found: " +:+ endpoint
      else signup_error_message r
  end.

Definition signup_records (endpoint : string) (o : fetch_outcome) : option string :=
  Some (signup_message endpoint o).

(** The latest error after a candidate that recorded [m] (or nothing). *)
Definition latest (lastError m : option string) : option string :=
  match m with
  | Some e => Some e
  | None => lastError
  end.

(** The two operations that probe candidate endpoints. *)
Inductive operation : Type := Login | Signup.

Definition endpoints_of (op : operation) : list string :=
  match op with
  | Login => login_endpoints
  | Signup => signup_endpoints
  end.

Definition generic_message (op : operation) : string :=
  match op with
  | Login => "Login failed"
  | Signup => "Signup failed"
  end.

Definition records (op : operation) : string -> fetch_outcome -> option string :=
  match op with
  | Login => login_records
  | Signup => signup_records
  end.

Definition attempt (op : operation) (backend : request -> fetch_outcome) :
    credentials -> string -> option string -> M state ctl :=
  match op with
  | Login => login_attempt backend
  | Signup => signup_attempt backend
  end.

Definition loop (op : operation) (backend : request -> fetch_outcome) :
    credentials -> list string -> option string -> M state unit :=
  match op with
  | Login => login_loop backend
  | Signup => signup_loop backend
  end.

Definition run (op : operation) (backend : request -> fetch_outcome) :
    credentials -> M state unit :=
  match op with
  | Login => login backend
  | Signup => signup backend
  end.

(** ** The contract of the candidate loop *)

(** The state after a request was sent to each of [endpoints] in turn. *)
Fixpoint sent_all (endpoints : list string) (creds : credentials) (s : state) : state :=
  match endpoints with
  | [] => s
  | endpoint :: rest => sent_all rest creds (sent endpoint creds s)
  end.

(** The latest error once each of [endpoints] failed in turn, starting from
    [lastError]. *)
Fixpoint last_recorded (op : operation) (backend : request -> fetch_outcome)
    (creds : credentials) (endpoints : list string) (lastError : option string)
    : option string :=
  match endpoints with
  | [] => lastError
  | endpoint :: rest =>
      last_recorded op backend creds rest
        (latest lastError (records op endpoint (backend (post endpoint creds))))
  end.

(** The message of the error thrown when the candidates are exhausted. *)
Definition surfaced (op : operation) (lastError : option string) : string :=
  match lastError with
  | Some e => e
  | None => generic_message op
  end.

(** No candidate of [endpoints] wins. *)
Definition all_fail (backend : request -> fetch_outcome) (creds : credentials)
    (endpoints : list string) : Prop :=
  Forall (fun endpoint => winner (backend (post endpoint creds)) = None) endpoints.

(** The candidate answers with HTTP 404. *)
Definition not_found (o : fetch_outcome) : Prop :=
  exists r, o = Responds r /\ status r = 404.

(** ** Concrete inputs *)

Definition alice : credentials := {| username := "alice"; password := "pw" |}.

(** The anonymous session, before any request. *)
Definition anonymous : state := {| token := JNull; user := JNull; requests := [] |}.

(** A session already signed in as bob. *)
Definition signed_in : state :=
  {| token := JStr "old"; user := JObj [("username", JStr "bob")]; requests := [] |}.

(** A response with a JSON body; its text cannot be read once the JSON was. *)
Definition json_response (code : Z) (j : json) : response :=
  {| status := code; res_json := Ret j; res_text := Throw "body stream already read" |}.

(** A response whose body is the text [t], not JSON. *)
Definition text_response (code : Z) (t : string) : response :=
  {| status := code; res_json := Throw syntax_error; res_text := Ret t |}.

(** Every path answers 404. *)
Definition backend_404 : request -> fetch_outcome :=
  fun _ => Responds (text_response 404 "Not Found").

(** Only [path] exists, and answers [r]. *)
Definition backend_at (path : string) (r : response) : request -> fetch_outcome :=
  fun q => if String.eqb (url q) path then Responds r
           else Responds (text_response 404 "Not Found").

(** A response whose body is not JSON, on a platform where a body can be
    read only once: [res.json()] fails, and [res.text()] after it fails too. *)
Definition html_response (code : Z) : response :=
  {| status := code; res_json := Throw syntax_error;
     res_text := Throw "body stream already read" |}.

(** The first login path is missing; every other path answers 500 with an
    HTML error page. *)
Definition backend_broken : request -> fetch_outcome :=
  fun q => if String.eqb (url q) "/api/auth/token/"
           then Responds (html_response 404)
           else Responds (html_response 500).

Definition body_full : json :=
  JObj [("access", JStr "abc123"); ("user", JObj [("username", JStr "alice")])].

Definition body_empty : json := JObj [].

Definition body_token_only : json := JObj [("token", JStr "t0")].




Definition empty_storage : Storage :=
  {| accessible := true; full := false; items := ∅ |}.


(** ** The claims that fail, as the specification states them *)

Definition fully_authenticated (s : state) : Prop := token s <> JNull /\ user s <> JNull.
Definition fully_anonymous (s : state) : Prop := token s = JNull /\ user s = JNull.

(** The states the operations of the session manager lead to from [s0]. *)
Inductive reachable (s0 : state) : state -> Prop :=
| reach_start : reachable s0 s0
| reach_run op backend creds s o s' :
    reachable s0 s -> run op backend creds s = (o, s') -> reachable s0 s'
| reach_logout s o s' :
    reachable s0 s -> logout s = (o, s') -> reachable s0 s'.

(** C1 as stated. *)
Definition session_all_or_nothing : Prop :=
  forall s, reachable anonymous s -> fully_authenticated s \/ fully_anonymous s.


(** C4 as stated: when a candidate that is not the last one answers 404 and
    the operation fails, the surfaced message was recorded by a later
    candidate. *)
Definition not_found_never_surfaces (op : operation) : Prop :=
  forall backend creds s pre ep rest m s',
    endpoints_of op = (pre ++ ep :: rest)%list -> rest <> [] ->
    not_found (backend (post ep creds)) ->
    run op backend creds s = (Throw m, s') ->
    exists ep', In ep' rest /\ records op ep' (backend (post ep' creds)) = Some m.

(** C2 as stated: whenever the first candidate answers with a successful
    status, [login] returns having sent that one request only. *)
Definition first_success_wins : Prop :=
  forall backend creds s r,
    backend (post "/api/auth/token/" creds) = Responds r -> ok r = true ->
    exists s',
      login backend creds s = (Ret tt, s') /\
      requests s' = (requests s ++ [post "/api/auth/token/" creds])%list.

(** C6 as stated: whatever JSON body a successful response carries, [login]
    completes with the token taken from it. *)
Definition token_extraction_total : Prop :=
  forall backend creds s pre ep rest r data,
    login_endpoints = (pre ++ ep :: rest)%list -> all_fail backend creds pre ->
    backend (post ep creds) = Responds r ->
    ok r = true -> res_json r = Ret data ->
    exists s', login backend creds s = (Ret tt, s') /\ token s' = token_of data.

(** The first login path answers 200 with an HTML page, the second one with
    a token. *)
Definition backend_html_first : request -> fetch_outcome :=
  fun q => if String.eqb (url q) "/api/auth/token/"
           then Responds (html_response 200)
           else Responds (json_response 200 (JObj [("access", JStr "second")])).

(** Every path answers 200 with the JSON body [null]. *)
Definition backend_null : request -> fetch_outcome :=
  fun _ => Responds (json_response 200 JNull).


(** ** Further concrete inputs *)

(** A backend in the style of djangorestframework-simplejwt: only
    [/api/auth/token/] exists, and it rejects the credentials. *)
Definition backend_rejects : request -> fetch_outcome :=
  backend_at "/api/auth/token/"
    (json_response 401 (JObj [("detail", JStr "No active account found")])).

(** Only [/api/auth/signup/] exists, and it answers 400 in plain text. *)
Definition backend_taken : request -> fetch_outcome :=
  backend_at "/api/auth/signup/" (text_response 400 "username taken").

(** A storage that already holds bob's session and a setting of the page. *)
Definition bob_storage (is_full : bool) : Storage :=
  {| accessible := true; full := is_full;
     items := <[TOKEN_KEY := "old"]>
                (<[USER_KEY := JSON_stringify (JObj [("username", JStr "bob")])]>
                   (<["theme" := "dark"]> ∅)) |}.

(** * The pages that use the session manager *)

(** [try { c } finally { f }]: [f] runs however [c] ends, and an error of
    [f] replaces the outcome of [c]. *)
Definition try_finally {S A} (c : M S A) (f : M S unit) : M S A :=
  fun s => match c s with
           | (o, s') =>
               match f s' with
               | (Ret _, s'') => (o, s'')
               | (Throw e, s'') => (Throw e, s'')
               end
           end.

(** ** The sign-in and sign-up forms *)

Module Forms.

(** The [useState] cells of a form. *)
Record form : Type := {
  form_username : string;
  form_password : string;
  error : option string;
  loading : bool
}.

(** A form within the application: the session it reaches through
    [useAuth], its own state, and the route shown. *)
Record page : Type := {
  auth : state;
  view : form;
  location : string
}.

Definition setError (e : option string) : M page unit :=
  fun p => (Ret tt,
            {| auth := auth p;
               view := {| form_username := form_username (view p);
                          form_password := form_password (view p);
                          error := e; loading := loading (view p) |};
               location := location p |}).

Definition setLoading (b : bool) : M page unit :=
  fun p => (Ret tt,
            {| auth := auth p;
               view := {| form_username := form_username (view p);
                          form_password := form_password (view p);
                          error := error (view p); loading := b |};
               location := location p |}).

(** [nav(to)] *)
Definition nav (to : string) : M page unit :=
  fun p => (Ret tt, {| auth := auth p; view := view p; location := to |}).

(** An operation of the session manager, run on the session of the page. *)
Definition on_auth {A} (c : M state A) : M page A :=
  fun p => match c (auth p) with
           | (o, s') => (o, {| auth := s'; view := view p; location := location p |})
           end.

(** The credentials typed into the form. *)
Definition typed (p : page) : credentials :=
  {| username := form_username (view p); password := form_password (view p) |}.

End Forms.

Module SignIn.
Import Forms.

(** [submit] of the sign-in form. *)
Definition submit (backend : request -> fetch_outcome) : M page unit :=
  fun p =>
    (setError None ;;
     setLoading true ;;
     try_finally
       (try_catch
          (on_auth (login backend (typed p)) ;; nav "/")
          (fun e => setError (Some e)))
       (setLoading false)) p.

End SignIn.

Module SignUp.
Import Forms.

(** [submit] of the sign-up form. *)
Definition submit (backend : request -> fetch_outcome) : M page unit :=
  fun p =>
    (setError None ;;
     setLoading true ;;
     try_finally
       (try_catch
          (on_auth (signup backend (typed p)) ;; nav "/")
          (fun e => setError (Some e)))
       (setLoading false)) p.

End SignUp.

(** The form that calls an operation. *)
Definition submit_of (op : operation) (backend : request -> fetch_outcome)
    : M Forms.page unit :=
  match op with
  | Login => SignIn.submit backend
  | Signup => SignUp.submit backend
  end.

(** ** The messages page *)

Module Messages.

(** The request of the page: a GET with an optional [Authorization]
    header. *)
Record get_request : Type := {
  path : string;
  authorization : option string
}.

(** The [useState] cells of the page, and the requests it has sent. *)
Record view : Type := {
  messages : list json;
  loading : bool;
  error : option string;
  fetched : list get_request
}.

Definition setMessages (l : list json) : M view unit :=
  fun v => (Ret tt, {| messages := l; loading := loading v; error := error v;
                       fetched := fetched v |}).

Definition setLoading (b : bool) : M view unit :=
  fun v => (Ret tt, {| messages := messages v; loading := b; error := error v;
                       fetched := fetched v |}).

Definition setError (e : option string) : M view unit :=
  fun v => (Ret tt, {| messages := messages v; loading := loading v; error := e;
                       fetched := fetched v |}).

Section Load.

(** The backend that serves the messages. *)
Variable backend : get_request -> fetch_outcome.

(** [await fetch(url, { headers })] *)
Definition fetch (url : string) (header : option string) : M view response :=
  fun v =>
    let q := {| path := url; authorization := header |} in
    let v' := {| messages := messages v; loading := loading v; error := error v;
                 fetched := fetched v ++ [q] |} in
    match backend q with
    | Responds r => (Ret r, v')
    | Fails e => (Throw e, v')
    end.

(** [load] of the effect of the page, for the token [auth.token] of the
    session; [mounted] is the value of the flag of that name once the
    requests have settled, that is, whether the page is still shown. *)
Definition load (auth_token : json) (mounted : bool) : M view unit :=
  setLoading true ;;
  setError None ;;
  try_finally
    (try_catch
       (let tok := auth_token in
        let header := if truthy tok then Some ("Bearer " +:+ to_String tok) else None in
        let* res := fetch "/api/messages" header in
        if negb (ok res) then throw ("HTTP " +:+ print_num (status res) EmptyString)
        else
          let* data := lift (res_json res) in
          if negb mounted then ret tt
          else setMessages (match data with JArr l => l | _ => [] end))
       (fun e => if negb mounted then ret tt else setError (Some e)))
    (if mounted then setLoading false else ret tt).

End Load.

End Messages.

(** ** The header of the application *)

(** What [AuthActions] renders: the name and the sign-out button, or the
    links to the two forms. *)
Inductive auth_actions : Type :=
| SignedIn (label : json)
| SignedOut.

(** [a ?? b] for a value [b]. *)
Definition coalesce (a : option json) (b : json) : json :=
  match a with
  | None | Some JNull => b
  | Some v => v
  end.

Definition AuthActions (s : state) : outcome auth_actions :=
  if truthy (user s) then
    match get (user s) "username" with
    | Ret n => Ret (SignedIn (coalesce n (JStr "You")))
    | Throw e => Throw e
    end
  else Ret SignedOut.

(** A form filled in again after a failed attempt, over a session. *)
Definition fresh_form (s : state) (name pw : string) : Forms.page :=
  {| Forms.auth := s;
     Forms.view := {| Forms.form_username := name; Forms.form_password := pw;
                      Forms.error := Some "previous error"; Forms.loading := false |};
     Forms.location := "/signin" |}.

(** The messages page as first shown. *)
Definition fresh_messages : Messages.view :=
  {| Messages.messages := [];
     Messages.loading := false; Messages.error := None; Messages.fetched := [] |}.

(** The messages backend answers with a body that is not an array. *)
Definition messages_wrapped : Messages.get_request -> fetch_outcome :=
  fun _ => Responds (json_response 200 (JObj [("results", JArr [JStr "hi"])])).

(** ** Mounting the provider *)

(** The first render of [AuthProvider]: both initialisers, then both
    effects, which React runs once after the first render with the values
    just read. *)
Definition AuthProvider_mount : M Storage (json * json) :=
  let* session := AuthProvider_init in
  persist (fst session) (snd session) ;;
  ret session.

(** A storage whose user entry is not JSON. *)
Definition corrupt_storage : Storage :=
  {| accessible := true; full := false;
     items := <[TOKEN_KEY := "abc123"]> (<[USER_KEY := "{oops"]> ∅) |}.
(** * Properties *)

(** ** The JSON codec: parsing a printed value gives the value back *)

Lemma read_uint_stop k :
  starts_with_digit k = false -> read_uint k = (Decimal.Nil, k).
Proof.
  destruct k as [|c r]; simpl; [reflexivity|].
  destruct (digit_of c); [discriminate|reflexivity].
Qed.

Lemma read_uint_print u k :
  starts_with_digit k = false -> read_uint (print_uint u k) = (u, k).
Proof.
  intros Hk. induction u; simpl; rewrite ?IHu; auto using read_uint_stop.
Qed.

Lemma to_int_normal n :
  match Z.to_int n with
  | Decimal.Pos u | Decimal.Neg u => Decimal.unorm u = u
  end.
Proof.
  pose proof (DecimalZ.to_of (Z.to_int n)) as H.
  rewrite DecimalZ.of_to in H.
  destruct (Z.to_int n) as [u|u]; simpl in H.
  - congruence.
  - destruct (Decimal.nzhead u) eqn:E; try discriminate;
      unfold Decimal.unorm; rewrite E; congruence.
Qed.

Lemma numeral_ok_normal u : Decimal.unorm u = u -> numeral_ok u = true.
Proof.
  intros H. unfold numeral_ok. rewrite H.
  apply Decimal.internal_uint_dec_lb. reflexivity.
Qed.

Lemma normal_nonnil u : Decimal.unorm u = u -> u <> Decimal.Nil.
Proof. intros H E. apply (DecimalFacts.unorm_nonnil u). congruence. Qed.

Lemma read_num_print n k :
  starts_with_digit k = false -> read_num (print_num n k) = Some (n, k).
Proof.
  intros Hk. unfold print_num.
  pose proof (to_int_normal n) as Hn. pose proof (DecimalZ.of_to n) as Hof.
  destruct (Z.to_int n) as [u|u].
  - pose proof (normal_nonnil u Hn) as Hnil.
    assert (read_num (print_uint u k)
            = let (u', r') := read_uint (print_uint u k) in
              if numeral_ok u' then Some (Z.of_int (Decimal.Pos u'), r') else None) as ->.
    { destruct u; try congruence; reflexivity. }
    rewrite read_uint_print, numeral_ok_normal, Hof; auto.
  - unfold read_num. rewrite read_uint_print, numeral_ok_normal, Hof; auto.
Qed.

Lemma read_chars_print_char c k :
  read_chars (print_char c k) = cons_char c (read_chars k).
Proof. destruct c as [[] [] [] [] [] [] [] []]; reflexivity. Qed.

Lemma read_chars_print s k :
  read_chars (print_chars s (String dquote k)) = Some (s, k).
Proof.
  induction s as [|c s IH]; simpl; [reflexivity|].
  rewrite read_chars_print_char, IH. reflexivity.
Qed.

(** *** What a printed value starts with *)

Lemma print_uint_head u k :
  u <> Decimal.Nil -> exists c r, print_uint u k = String c r /\ num_start c = true.
Proof. destruct u; try congruence; intros _; simpl; eauto. Qed.

Lemma print_num_head n k :
  exists c r, print_num n k = String c r /\ num_start c = true.
Proof.
  unfold print_num. pose proof (to_int_normal n) as Hn.
  destruct (Z.to_int n) as [u|u].
  - apply print_uint_head, normal_nonnil, Hn.
  - eauto.
Qed.

Lemma num_start_value_start c : num_start c = true -> value_start c = true.
Proof.
  unfold num_start, value_start. intros H.
  apply orb_true_iff in H as [H|H]; rewrite H; rewrite ?orb_true_r; reflexivity.
Qed.

Lemma print_head v k :
  exists c r, print v k = String c r /\ value_start c = true.
Proof.
  destruct v as [|[]|n|s|l|l]; simpl; eauto.
  destruct (print_num_head n k) as (c & r & -> & H).
  eauto using num_start_value_start.
Qed.

Lemma value_start_skip c r : value_start c = true -> skip_ws (String c r) = String c r.
Proof. destruct c as [[] [] [] [] [] [] [] []]; try discriminate; reflexivity. Qed.

Lemma value_start_not_punct c r p :
  value_start c = true -> value_start p = false -> next_is p (String c r) = None.
Proof.
  intros Hc Hp. unfold next_is. rewrite value_start_skip by assumption.
  destruct (Ascii.eqb_spec c p) as [->|]; [congruence|reflexivity].
Qed.

Lemma next_is_print v k p : value_start p = false -> next_is p (print v k) = None.
Proof.
  intros Hp. destruct (print_head v k) as (c & r & -> & Hc).
  eauto using value_start_not_punct.
Qed.

(** *** One step of the parser on each kind of text *)

Lemma parse_value_num n s :
  (exists c r, s = String c r /\ num_start c = true) ->
  parse_value (S n) s =
    match read_num s with
    | Some (z, r') => Some (JNum z, r')
    | None => None
    end.
Proof.
  intros (c & r & -> & Hc).
  destruct c as [[] [] [] [] [] [] [] []]; try discriminate; reflexivity.
Qed.

Lemma parse_value_str n r :
  parse_value (S n) (String dquote r) =
    match read_chars r with
    | Some (str, r') => Some (JStr str, r')
    | None => None
    end.
Proof. reflexivity. Qed.

Lemma parse_value_arr n r :
  parse_value (S n) (String "[" r) =
    match next_is "]" r with
    | Some r' => Some (JArr [], r')
    | None => parse_elements n r []
    end.
Proof. reflexivity. Qed.

Lemma parse_value_obj n r :
  parse_value (S n) (String "{" r) =
    match next_is "}" r with
    | Some r' => Some (JObj [], r')
    | None => parse_members n r []
    end.
Proof. reflexivity. Qed.

Lemma parse_elements_step n s acc :
  parse_elements (S n) s acc =
    match parse_value n s with
    | Some (v, r) =>
        match next_is "," r with
        | Some r' => parse_elements n r' (acc ++ [v])
        | None =>
            match next_is "]" r with
            | Some r' => Some (JArr (acc ++ [v]), r')
            | None => None
            end
        end
    | None => None
    end.
Proof. reflexivity. Qed.

Lemma parse_members_step n key r acc :
  parse_members (S n) (String dquote (print_chars key (String dquote (String ":" r)))) acc =
    match parse_value n r with
    | Some (v, r3) =>
        match next_is "," r3 with
        | Some r4 => parse_members n r4 (obj_set key v acc)
        | None =>
            match next_is "}" r3 with
            | Some r4 => Some (JObj (obj_set key v acc), r4)
            | None => None
            end
        end
    | None => None
    end.
Proof.
  change (parse_members (S n) ?s acc) with
    (match next_is dquote s with
     | Some r =>
         match read_chars r with
         | Some (key, r1) =>
             match next_is ":" r1 with
             | Some r2 =>
                 match parse_value n r2 with
                 | Some (v, r3) =>
                     match next_is "," r3 with
                     | Some r4 => parse_members n r4 (obj_set key v acc)
                     | None =>
                         match next_is "}" r3 with
                         | Some r4 => Some (JObj (obj_set key v acc), r4)
                         | None => None
                         end
                     end
                 | None => None
                 end
             | None => None
             end
         | None => None
         end
     | None => None
     end).
  change (next_is dquote (String dquote ?r)) with (Some r).
  cbv beta iota. rewrite read_chars_print.
  change (next_is ":" (String ":" ?r)) with (Some r).
  reflexivity.
Qed.

(** *** Objects under construction *)

Lemma has_key_app k l1 l2 : has_key k (l1 ++ l2)%list = has_key k l1 || has_key k l2.
Proof.
  unfold has_key. induction l1 as [|[k' v'] l1 IH]; simpl; [reflexivity|].
  destruct (String.eqb k k'); [reflexivity|exact IH].
Qed.

Lemma has_key_here k x l : has_key k ((k, x) :: l) = true.
Proof. unfold has_key. simpl. rewrite String.eqb_refl. reflexivity. Qed.

Lemma uniq_middle acc k x xs :
  uniq (acc ++ (k, x) :: xs)%list = true -> has_key k acc = false.
Proof.
  induction acc as [|[k' v'] acc IH]; simpl; [reflexivity|].
  intros H. apply andb_true_iff in H as [Hk' Hu].
  unfold has_key in *. simpl.
  destruct (String.eqb_spec k k') as [->|_]; [|auto].
  apply negb_true_iff in Hk'.
  pose proof (has_key_app k' acc ((k', x) :: xs)) as E.
  unfold has_key in E. rewrite Hk' in E.
  fold (has_key k' ((k', x) :: xs)) in E. rewrite has_key_here, orb_true_r in E.
  discriminate.
Qed.

Lemma obj_set_fresh k v acc : has_key k acc = false -> obj_set k v acc = (acc ++ [(k, v)])%list.
Proof.
  unfold has_key. induction acc as [|[k' v'] acc IH]; simpl; [reflexivity|].
  destruct (String.eqb k k'); [discriminate|]. intros H. rewrite IH; auto.
Qed.

(** *** The round trip *)

Lemma print_elements_no_digit l k : starts_with_digit (print_elements print l k) = false.
Proof. destruct l; reflexivity. Qed.

Lemma print_members_no_digit l k : starts_with_digit (print_members print l k) = false.
Proof. destruct l as [|[]]; reflexivity. Qed.

Lemma parse_elements_print xs : forall x acc n k,
  Forall parses (x :: xs) -> forallb wf (x :: xs) = true ->
  (list_sum (map (fun y => S (size y)) (x :: xs)) <= n)%nat ->
  starts_with_digit k = false ->
  parse_elements n (print x (print_elements print xs k)) acc = Some (JArr (acc ++ x :: xs)%list, k).
Proof.
  induction xs as [|y ys IH]; intros x acc n k HF Hwf Hn Hk;
    (destruct n as [|n]; [simpl in Hn; lia|]);
    rewrite parse_elements_step;
    inversion HF as [|? ? Hx HF']; subst;
    simpl in Hwf; apply andb_true_iff in Hwf as [Hwx Hwf];
    rewrite (Hx Hwx n) by (simpl in Hn; lia || apply print_elements_no_digit).
  - reflexivity.
  - simpl print_elements.
    change (next_is "," (String "," ?r)) with (Some r). cbv beta iota.
    rewrite IH; auto.
    + rewrite <- app_assoc. reflexivity.
    + simpl in *. lia.
Qed.

Lemma parse_members_print xs : forall key x acc n k,
  parses x -> Forall (fun kv => parses (snd kv)) xs ->
  wf x = true -> forallb (fun kv => wf (snd kv)) xs = true ->
  uniq (acc ++ (key, x) :: xs)%list = true ->
  (list_sum (map (fun kv => S (size (snd kv))) ((key, x) :: xs)) <= n)%nat ->
  starts_with_digit k = false ->
  parse_members n (print_member print key x (print_members print xs k)) acc
  = Some (JObj (acc ++ (key, x) :: xs)%list, k).
Proof.
  induction xs as [|[key' y] ys IH]; intros key x acc n k Hx HF Hwx Hwf Hu Hn Hk;
    (destruct n as [|n]; [simpl in Hn; lia|]);
    unfold print_member at 1, print_str; rewrite parse_members_step;
    rewrite (Hx Hwx n) by (simpl in Hn; lia || apply print_members_no_digit);
    rewrite (obj_set_fresh key x acc (uniq_middle _ _ _ _ Hu)).
  - reflexivity.
  - simpl print_members.
    change (next_is "," (String "," ?r)) with (Some r). cbv beta iota.
    inversion HF as [|? ? Hy HF']; subst.
    simpl in Hwf; apply andb_true_iff in Hwf as [Hwy Hwf].
    rewrite IH; auto.
    + rewrite <- app_assoc. reflexivity.
    + rewrite <- app_assoc. exact Hu.
    + simpl in *. lia.
Qed.

Lemma parse_print v : parses v.
Proof.
  induction v as [|b|z|s|l IH|l IH] using json_induction;
    intros Hwf n k Hn Hk; (destruct n as [|n]; [simpl in Hn; lia|]).
  - reflexivity.
  - destruct b; reflexivity.
  - simpl print. rewrite parse_value_num by apply print_num_head.
    rewrite read_num_print by assumption. reflexivity.
  - simpl print. unfold print_str. rewrite parse_value_str, read_chars_print.
    reflexivity.
  - destruct l as [|x xs]; [reflexivity|].
    change (print (JArr (x :: xs)) k) with (String "[" (print x (print_elements print xs k))).
    rewrite parse_value_arr, next_is_print by reflexivity.
    apply parse_elements_print; auto. simpl in Hn. simpl. lia.
  - destruct l as [|[key x] xs]; [reflexivity|].
    change (print (JObj ((key, x) :: xs)) k)
      with (String "{" (print_member print key x (print_members print xs k))).
    rewrite parse_value_obj.
    unfold print_member at 1, print_str.
    change (next_is "}" (String dquote ?r)) with (@None string). cbv beta iota.
    fold (print_str key (String ":" (print x (print_members print xs k)))).
    fold (print_member print key x (print_members print xs k)).
    simpl in Hwf. apply andb_true_iff in Hwf as [Hu Hwf].
    apply andb_true_iff in Hwf as [Hwx Hwf].
    inversion IH as [|? ? Hx IH']; subst.
    apply (parse_members_print xs key x [] n k); auto.
    simpl in Hn. simpl. lia.
Qed.

(** *** The text of a value is long enough to serve as the parser's bound *)

Lemma print_uint_length u k :
  (String.length k <= String.length (print_uint u k))%nat /\
  (u <> Decimal.Nil -> (String.length k < String.length (print_uint u k))%nat).
Proof.
  induction u; simpl; (split; [lia|intros _; lia || congruence]) || (split; [lia|congruence]).
Qed.

Lemma print_num_length n k : (String.length k < String.length (print_num n k))%nat.
Proof.
  unfold print_num. pose proof (to_int_normal n) as Hn.
  destruct (Z.to_int n) as [u|u].
  - apply print_uint_length, normal_nonnil, Hn.
  - simpl. pose proof (proj1 (print_uint_length u k)). lia.
Qed.

Lemma print_char_length c k : (String.length k < String.length (print_char c k))%nat.
Proof. destruct c as [[] [] [] [] [] [] [] []]; simpl; lia. Qed.

Lemma print_chars_length s k : (String.length k <= String.length (print_chars s k))%nat.
Proof.
  induction s as [|c s IH]; simpl; [lia|].
  pose proof (print_char_length c (print_chars s k)). lia.
Qed.

Lemma print_str_length s k : (2 + String.length k <= String.length (print_str s k))%nat.
Proof.
  unfold print_str. simpl.
  pose proof (print_chars_length s (String dquote k)). simpl in *. lia.
Qed.

Lemma print_elements_length xs k :
  Forall (fun v => forall k, (size v + String.length k <= String.length (print v k))%nat) xs ->
  (list_sum (map (fun y => S (size y)) xs) + 1 + String.length k
   <= String.length (print_elements print xs k))%nat.
Proof.
  induction 1 as [|y ys Hy _ IH]; simpl; [lia|].
  specialize (Hy (print_elements print ys k)). lia.
Qed.

Lemma print_members_length xs k :
  Forall (fun kv => forall k, (size (snd kv) + String.length k
                               <= String.length (print (snd kv) k))%nat) xs ->
  (list_sum (map (fun kv => S (size (snd kv))) xs) + 1 + String.length k
   <= String.length (print_members print xs k))%nat.
Proof.
  induction 1 as [|[key y] ys Hy _ IH]; simpl; [lia|].
  unfold print_member.
  pose proof (print_str_length key (String ":" (print y (print_members print ys k)))) as H.
  specialize (Hy (print_members print ys k)). simpl in *. lia.
Qed.

Lemma print_length v :
  forall k, (size v + String.length k <= String.length (print v k))%nat.
Proof.
  induction v as [|b|z|s|l IH|l IH] using json_induction; intros k.
  - cbv [print String.append size]. simpl. lia.
  - destruct b; cbv [print String.append size]; simpl; lia.
  - simpl. pose proof (print_num_length z k). lia.
  - pose proof (print_str_length s k). simpl size. change (print (JStr s) k) with (print_str s k). lia.
  - destruct l as [|x xs]; [simpl; lia|].
    inversion IH as [|? ? Hx IH']; subst.
    change (print (JArr (x :: xs)) k) with (String "[" (print x (print_elements print xs k))).
    pose proof (Hx (print_elements print xs k)).
    pose proof (print_elements_length xs k IH'). simpl in *. lia.
  - destruct l as [|[key x] xs]; [simpl; lia|].
    inversion IH as [|? ? Hx IH']; subst.
    change (print (JObj ((key, x) :: xs)) k)
      with (String "{" (print_member print key x (print_members print xs k))).
    unfold print_member.
    pose proof (print_str_length key (String ":" (print x (print_members print xs k)))).
    pose proof (Hx (print_members print xs k)).
    pose proof (print_members_length xs k IH'). simpl in *. lia.
Qed.

(** [JSON.parse(JSON.stringify(v))] is [v]. *)
Lemma JSON_parse_stringify v : wf v = true -> JSON_parse (JSON_stringify v) = Ret v.
Proof.
  intros Hwf. unfold JSON_parse, JSON_stringify.
  rewrite (parse_print v Hwf); [reflexivity| |reflexivity].
  pose proof (print_length v EmptyString). lia.
Qed.


(** *** Parsed values are well formed *)






(** ** One candidate attempt *)

Section Attempts.

Variable backend : request -> fetch_outcome.
Variable creds : credentials.

Lemma commit_cases r s :
  commit r creds s =
    match res_json r with
    | Ret JNull => (Throw (type_error "access"), s)
    | Ret data => (Ret Return, committed data creds s)
    | Throw e => (Throw e, s)
    end.
Proof.
  unfold commit, committed, extract_token, extract_user, token_of, user_of,
    bind, lift, ret, nullish_or, get, field, setToken, setUser, if_truthy.
  destruct (res_json r) as [[| | | | |l]|e]; try reflexivity.
  destruct (assoc "access" l) as [[]|]; simpl;
    destruct (assoc "token" l) as [[]|]; simpl;
    destruct (assoc "auth_token" l) as [[]|]; simpl;
    destruct (assoc "user" l) as [[]|]; simpl;
    destruct (assoc "username" l) as [u|]; simpl; try reflexivity;
    destruct (truthy u); reflexivity.
Qed.

Lemma login_attempt_spec ep le s :
  login_attempt backend creds ep le s =
    match winner (backend (post ep creds)) with
    | Some data => (Ret Return, committed data creds (sent ep creds s))
    | None =>
        (Ret (Continue (latest le (login_records ep (backend (post ep creds))))),
         sent ep creds s)
    end.
Proof.
  unfold login_attempt, try_catch, bind at 1, fetch. fold (sent ep creds s).
  destruct (backend (post ep creds)) as [r|e]; [|reflexivity].
  unfold winner, login_records, unusable_body. destruct (ok r); simpl.
  - rewrite commit_cases. destruct (res_json r) as [[]|]; reflexivity.
  - destruct (status r =? 404); [reflexivity|].
    unfold try_catch, bind, lift, ret, get, if_truthy, latest, truthy_opt, or_null.
    destruct (res_json r) as [[| | | | |l]|e]; try reflexivity.
    + destruct (res_text r) as [t|]; [|reflexivity].
      destruct (String.eqb t EmptyString); reflexivity.
    + destruct (assoc "detail" l) as [d|].
      * destruct (truthy d); [reflexivity|].
        destruct (assoc "non_field_errors" l) as [e|]; [|reflexivity].
        destruct (truthy e); reflexivity.
      * destruct (assoc "non_field_errors" l) as [e|]; [|reflexivity].
        destruct (truthy e); reflexivity.
    + destruct (res_text r) as [t|]; [|reflexivity].
      destruct (String.eqb t EmptyString); reflexivity.
Qed.

Lemma signup_attempt_spec ep le s :
  signup_attempt backend creds ep le s =
    match winner (backend (post ep creds)) with
    | Some data => (Ret Return, committed data creds (sent ep creds s))
    | None =>
        (Ret (Continue (latest le (signup_records ep (backend (post ep creds))))),
         sent ep creds s)
    end.
Proof.
  unfold signup_attempt, try_catch, bind at 1, fetch. fold (sent ep creds s).
  destruct (backend (post ep creds)) as [r|e]; [|reflexivity].
  unfold winner, signup_records, signup_message, signup_error_message. destruct (ok r); simpl.
  - rewrite commit_cases. destruct (res_json r) as [[]|]; reflexivity.
  - destruct (status r =? 404); [reflexivity|].
    unfold try_catch, bind, lift, ret, get, if_truthy, latest, truthy_opt, or_null.
    destruct (res_json r) as [[| | | | |l]|e]; try reflexivity.
    + destruct (res_text r) as [t|]; [|reflexivity].
      destruct (String.eqb t EmptyString); reflexivity.
    + destruct (assoc "detail" l) as [d|]; [|reflexivity].
      destruct (truthy d); reflexivity.
    + destruct (res_text r) as [t|]; [|reflexivity].
      destruct (String.eqb t EmptyString); reflexivity.
Qed.

Lemma attempt_spec op ep le s :
  attempt op backend creds ep le s =
    match winner (backend (post ep creds)) with
    | Some data => (Ret Return, committed data creds (sent ep creds s))
    | None =>
        (Ret (Continue (latest le (records op ep (backend (post ep creds))))),
         sent ep creds s)
    end.
Proof. destruct op; [apply login_attempt_spec|apply signup_attempt_spec]. Qed.

End Attempts.

(** ** The candidate loop *)

Section Loops.

Variable backend : request -> fetch_outcome.
Variable creds : credentials.

Lemma loop_nil op le s :
  loop op backend creds [] le s = (Throw (surfaced op le), s).
Proof. destruct op, le; reflexivity. Qed.

Lemma loop_cons op ep rest le s :
  loop op backend creds (ep :: rest) le s =
    match winner (backend (post ep creds)) with
    | Some data => (Ret tt, committed data creds (sent ep creds s))
    | None =>
        loop op backend creds rest
          (latest le (records op ep (backend (post ep creds)))) (sent ep creds s)
    end.
Proof.
  destruct op; simpl; unfold bind.
  - rewrite login_attempt_spec. destruct (winner _); reflexivity.
  - rewrite signup_attempt_spec. destruct (winner _); reflexivity.
Qed.

Lemma loop_all_fail op eps : forall le s,
  all_fail backend creds eps ->
  loop op backend creds eps le s =
    (Throw (surfaced op (last_recorded op backend creds eps le)), sent_all eps creds s).
Proof.
  induction eps as [|ep rest IH]; intros le s H.
  - apply loop_nil.
  - inversion H as [|? ? Hep Hrest]; subst.
    rewrite loop_cons, Hep. simpl. apply IH, Hrest.
Qed.

Lemma loop_skips op pre : forall rest le s,
  all_fail backend creds pre ->
  loop op backend creds (pre ++ rest) le s =
    loop op backend creds rest (last_recorded op backend creds pre le)
      (sent_all pre creds s).
Proof.
  induction pre as [|ep pre IH]; intros rest le s H; [reflexivity|].
  inversion H as [|? ? Hep Hpre]; subst.
  rewrite <- app_comm_cons, loop_cons, Hep. simpl. apply IH, Hpre.
Qed.

Lemma loop_winner op pre ep rest le s data :
  all_fail backend creds pre ->
  winner (backend (post ep creds)) = Some data ->
  loop op backend creds (pre ++ ep :: rest) le s =
    (Ret tt, committed data creds (sent ep creds (sent_all pre creds s))).
Proof.
  intros Hpre Hw. rewrite loop_skips by assumption.
  rewrite loop_cons, Hw. reflexivity.
Qed.

Lemma loop_outcome eps :
  all_fail backend creds eps \/
  exists pre ep rest data,
    eps = (pre ++ ep :: rest)%list /\ all_fail backend creds pre /\
    winner (backend (post ep creds)) = Some data.
Proof.
  induction eps as [|ep rest IH].
  - left. constructor.
  - destruct (winner (backend (post ep creds))) as [data|] eqn:Hw.
    + right. exists [], ep, rest, data. repeat split; [constructor|assumption].
    + destruct IH as [IH|(pre & ep' & rest' & data & -> & Hpre & Hw')].
      * left. constructor; assumption.
      * right. exists (ep :: pre), ep', rest', data.
        repeat split; [constructor; assumption|assumption].
Qed.

Lemma loop_throws op eps le s m s' :
  loop op backend creds eps le s = (Throw m, s') ->
  all_fail backend creds eps.
Proof.
  intros H. destruct (loop_outcome eps)
    as [Hall|(pre & ep & rest & data & -> & Hpre & Hw)]; [assumption|].
  rewrite (loop_winner op pre ep rest le s data Hpre Hw) in H. discriminate.
Qed.

Lemma sent_all_session eps : forall s,
  token (sent_all eps creds s) = token s /\ user (sent_all eps creds s) = user s.
Proof.
  induction eps as [|ep rest IH]; intros s; [split; reflexivity|].
  simpl. destruct (IH (sent ep creds s)) as [-> ->]. split; reflexivity.
Qed.

Lemma sent_all_requests eps : forall s,
  requests (sent_all eps creds s)
  = (requests s ++ map (fun ep => post ep creds) eps)%list.
Proof.
  induction eps as [|ep rest IH]; intros s; simpl.
  - rewrite app_nil_r. reflexivity.
  - rewrite IH. simpl. rewrite <- app_assoc. reflexivity.
Qed.

Lemma run_loop op s :
  run op backend creds s = loop op backend creds (endpoints_of op) None s.
Proof. destruct op; reflexivity. Qed.

End Loops.

(** ** The scenarios of the specification, by evaluation *)

Example scenario_success :
  login (backend_at "/api/auth/login/" (json_response 200 body_full)) alice anonymous
  = (Ret tt, {| token := JStr "abc123"; user := JObj [("username", JStr "alice")];
                requests := [post "/api/auth/token/" alice; post "/api/auth/login/" alice] |}).
Proof. vm_compute. reflexivity. Qed.

Example scenario_invalid_credentials :
  fst (login (backend_at "/api/auth/token/obtain/"
                (json_response 400 (JObj [("detail", JStr "invalid credentials")])))
         alice anonymous)
  = Throw "invalid credentials".
Proof. vm_compute. reflexivity. Qed.

Example scenario_all_not_found :
  fst (signup backend_404 alice anonymous) = Throw "Not found: /api/auth/register/".
Proof. vm_compute. reflexivity. Qed.

Example scenario_network_down :
  fst (login (fun _ => Fails "Failed to fetch") alice signed_in) = Throw "Failed to fetch".
Proof. vm_compute. reflexivity. Qed.

Example scenario_null_body :
  login (fun _ => Responds (json_response 200 JNull)) alice signed_in
  = (Throw "Cannot read properties of null (reading 'access')",
     sent_all login_endpoints alice signed_in).
Proof. vm_compute. reflexivity. Qed.

Example scenario_request_body :
  body (post "/api/auth/token/" alice)
  = String "{" (print_str "username" (String ":" (print_str "alice"
      (String "," (print_str "password" (String ":" (print_str "pw" "}"))))))).
Proof. vm_compute. reflexivity. Qed.

Example scenario_logout : logout signed_in = (Ret tt, anonymous).
Proof. reflexivity. Qed.

Example scenario_reload :
  (let (_, st) := persist (JStr "abc123") (JObj [("username", JStr "alice")]) empty_storage in
   fst (AuthProvider_init st))
  = Ret (JStr "abc123", JObj [("username", JStr "alice")]).
Proof. vm_compute. reflexivity. Qed.

(** * The claims *)

(** C10. [login] and [signup] are atomic on failure: when the operation
    throws, the session token and user record are what they were before the
    call; and no candidate attempt that fails (the loop continues after it),
    whatever the response was, changes them. *)
Theorem failure_is_atomic op backend creds s :
  (forall m s', run op backend creds s = (Throw m, s') ->
     token s' = token s /\ user s' = user s) /\
  (forall ep le le' s', attempt op backend creds ep le s = (Ret (Continue le'), s') ->
     token s' = token s /\ user s' = user s).
Proof.
  split.
  - intros m s' H. rewrite run_loop in H.
    pose proof (loop_throws _ _ _ _ _ _ _ _ H) as Hall.
    rewrite (loop_all_fail _ _ _ _ _ _ Hall) in H.
    injection H as _ <-. apply sent_all_session.
  - intros ep le le' s' H. rewrite attempt_spec in H.
    destruct (winner _); [discriminate|].
    injection H as _ <-. split; reflexivity.
Qed.

Lemma failure_is_atomic_witness :
  token (snd (run Login backend_broken alice signed_in)) = JStr "old" /\
  user (snd (run Login backend_broken alice signed_in)) = JObj [("username", JStr "bob")].
Proof.
  exact (proj1 (failure_is_atomic Login backend_broken alice signed_in)
           "Not found: /api/auth/token/"
           (snd (run Login backend_broken alice signed_in)) eq_refl).
Defined.

(** C2, as amended. If the first candidate endpoint returns a successful
    status with a JSON body that can be read and is not [null], [login]
    commits the token and the user extracted from that response and returns;
    the only request it has sent is the one to the first candidate. *)
Theorem login_first_candidate_wins backend creds s r data :
  backend (post "/api/auth/token/" creds) = Responds r ->
  ok r = true -> res_json r = Ret data -> data <> JNull ->
  login backend creds s =
    (Ret tt, {| token := token_of data; user := user_of data creds;
                requests := requests s ++ [post "/api/auth/token/" creds] |}).
Proof.
  intros Hr Hok Hj Hd.
  change (login backend creds s)
    with (loop Login backend creds ([] ++ "/api/auth/token/" :: ["/api/auth/login/"; "/api/auth/token/obtain/"]) None s).
  apply loop_winner; [constructor|].
  unfold winner. rewrite Hr, Hok, Hj. destruct data; congruence.
Qed.

Lemma login_first_candidate_wins_witness :
  login (backend_at "/api/auth/token/" (json_response 200 body_full)) alice anonymous =
    (Ret tt, {| token := JStr "abc123"; user := JObj [("username", JStr "alice")];
                requests := [post "/api/auth/token/" alice] |}).
Proof.
  apply (login_first_candidate_wins
           (backend_at "/api/auth/token/" (json_response 200 body_full))
           alice anonymous (json_response 200 body_full) body_full);
    [reflexivity|reflexivity|reflexivity|discriminate].
Defined.

(** C2 as stated fails: a successful status whose body is not JSON makes
    [res.json()] throw inside the [try]; the loop goes on, and the second
    candidate's token is committed after two requests. *)
Lemma unreadable_success_continues : ~ first_success_wins.
Proof.
  intros H.
  destruct (H backend_html_first alice anonymous (html_response 200) eq_refl eq_refl)
    as (s' & Hrun & Hreq).
  vm_compute in Hrun. injection Hrun as <-. vm_compute in Hreq. discriminate Hreq.
Qed.

Lemma not_found_fails op ep o :
  not_found o -> winner o = None /\ records op ep o = Some ("Not found: " +:+ ep).
Proof.
  intros (r & -> & Hs). unfold winner, ok. rewrite Hs.
  destruct op; simpl; unfold signup_records, signup_message, signup_error_message, login_records, ok;
    rewrite Hs; split; reflexivity.
Qed.

(** What [last_recorded] computes: the message of the last candidate that
    recorded one, or the error held before the loop when none did. *)
Lemma last_recorded_none op backend creds eps : forall le,
  Forall (fun ep => records op ep (backend (post ep creds)) = None) eps ->
  last_recorded op backend creds eps le = le.
Proof.
  induction eps as [|ep rest IH]; intros le H; [reflexivity|].
  inversion H as [|? ? Hep Hrest]; subst. simpl. rewrite Hep. apply IH, Hrest.
Qed.

Lemma last_recorded_app op backend creds pre rest le :
  last_recorded op backend creds (pre ++ rest) le
  = last_recorded op backend creds rest (last_recorded op backend creds pre le).
Proof.
  revert le. induction pre as [|ep pre IH]; intros le; [reflexivity|].
  simpl. apply IH.
Qed.

Lemma last_recorded_cases op backend creds eps : forall le,
  (last_recorded op backend creds eps le = le /\
   Forall (fun ep => records op ep (backend (post ep creds)) = None) eps) \/
  (exists pre ep rest m,
     eps = (pre ++ ep :: rest)%list /\
     records op ep (backend (post ep creds)) = Some m /\
     Forall (fun ep' => records op ep' (backend (post ep' creds)) = None) rest /\
     last_recorded op backend creds eps le = Some m).
Proof.
  induction eps as [|ep rest IH]; intros le.
  - left. split; [reflexivity|constructor].
  - simpl. destruct (IH (latest le (records op ep (backend (post ep creds)))))
      as [[Hl Hnone]|(pre & ep' & rest' & m & -> & Hm & Hnone & Hl)].
    + destruct (records op ep (backend (post ep creds))) as [m|] eqn:Hep.
      * right. exists [], ep, rest, m. repeat split; assumption.
      * left. split; [exact Hl|constructor; assumption].
    + right. exists (ep :: pre), ep', rest', m. repeat split; assumption.
Qed.

(** C5. When every login candidate answers 404, [login] throws an error
    whose message names the last path tried; in general, when no candidate
    wins, [login] throws the message recorded last, and the generic
    [Login failed] when no candidate recorded one. *)
Theorem login_exhausted backend creds s :
  (Forall (fun ep => not_found (backend (post ep creds))) login_endpoints ->
   login backend creds s =
     (Throw "Not found: /api/auth/token/obtain/", sent_all login_endpoints creds s)) /\
  (all_fail backend creds login_endpoints ->
   login backend creds s =
     (Throw (surfaced Login (last_recorded Login backend creds login_endpoints None)),
      sent_all login_endpoints creds s)) /\
  (all_fail backend creds login_endpoints ->
   Forall (fun ep => login_records ep (backend (post ep creds)) = None) login_endpoints ->
   login backend creds s = (Throw "Login failed", sent_all login_endpoints creds s)).
Proof.
  assert (Hgen : all_fail backend creds login_endpoints ->
    login backend creds s =
      (Throw (surfaced Login (last_recorded Login backend creds login_endpoints None)),
       sent_all login_endpoints creds s)).
  { intros Hall. apply (loop_all_fail backend creds Login login_endpoints None s Hall). }
  split; [|split].
  - intros H.
    assert (Hall : all_fail backend creds login_endpoints).
    { eapply Forall_impl; [exact H|]. intros ep Hep.
      apply (not_found_fails Login ep _ Hep). }
    rewrite (Hgen Hall). f_equal. f_equal.
    unfold login_endpoints in *.
    inversion H as [|? ? H1 H']; subst. inversion H' as [|? ? H2 H'']; subst.
    inversion H'' as [|? ? H3 _]; subst.
    simpl.
    rewrite (proj2 (not_found_fails Login _ _ H1)),
      (proj2 (not_found_fails Login _ _ H2)), (proj2 (not_found_fails Login _ _ H3)).
    reflexivity.
  - exact Hgen.
  - intros Hall Hnone. rewrite (Hgen Hall).
    rewrite (last_recorded_none Login backend creds login_endpoints None Hnone).
    reflexivity.
Qed.

Lemma login_exhausted_witness :
  login backend_404 alice anonymous =
    (Throw "Not found: /api/auth/token/obtain/", sent_all login_endpoints alice anonymous).
Proof.
  apply (proj1 (login_exhausted backend_404 alice anonymous)).
  repeat constructor; eexists; split; reflexivity.
Defined.

Lemma winning_response backend creds ep r data :
  backend (post ep creds) = Responds r ->
  ok r = true -> res_json r = Ret data -> data <> JNull ->
  winner (backend (post ep creds)) = Some data.
Proof.
  intros -> Hok Hj Hd. unfold winner. rewrite Hok, Hj. destruct data; congruence.
Qed.

(** C6, as amended. For every successful response body other than [null],
    [login] takes the session token from the field [access], else [token],
    else [auth_token], the first one present (neither missing nor [null])
    winning; when none of the three is present the token is set to absent and
    the operation still completes. *)
Theorem login_token_extraction backend creds s pre ep rest r data :
  login_endpoints = (pre ++ ep :: rest)%list -> all_fail backend creds pre ->
  backend (post ep creds) = Responds r ->
  ok r = true -> res_json r = Ret data -> data <> JNull ->
  exists s',
    login backend creds s = (Ret tt, s') /\
    token s' =
      (if present (field data "access") then or_null (field data "access")
       else if present (field data "token") then or_null (field data "token")
       else if present (field data "auth_token") then or_null (field data "auth_token")
       else JNull) /\
    (present (field data "access") = false ->
     present (field data "token") = false ->
     present (field data "auth_token") = false -> token s' = JNull).
Proof.
  intros Heps Hpre Hr Hok Hj Hd.
  pose proof (winning_response backend creds ep r data Hr Hok Hj Hd) as Hw.
  exists (committed data creds (sent ep creds (sent_all pre creds s))).
  split; [|split].
  - unfold login. rewrite Heps.
    apply (loop_winner backend creds Login pre ep rest None s data Hpre Hw).
  - reflexivity.
  - intros Ha Ht Hat. simpl. unfold token_of. rewrite Ha, Ht, Hat. reflexivity.
Qed.

Lemma login_token_extraction_witness :
  exists s',
    login (backend_at "/api/auth/login/" (json_response 200 body_token_only)) alice anonymous
      = (Ret tt, s') /\
    token s' = JStr "t0" /\
    (present (field body_token_only "access") = false ->
     present (field body_token_only "token") = false ->
     present (field body_token_only "auth_token") = false -> token s' = JNull).
Proof.
  apply (login_token_extraction
           (backend_at "/api/auth/login/" (json_response 200 body_token_only))
           alice anonymous ["/api/auth/token/"] "/api/auth/login/"
           ["/api/auth/token/obtain/"] (json_response 200 body_token_only)
           body_token_only);
    [reflexivity|repeat constructor|reflexivity|reflexivity|reflexivity|discriminate].
Defined.

(** C6 as stated fails: on the body [null] reading [data.access] throws,
    the attempt counts as failed, and [login] ends by throwing. *)
Lemma null_body_throws : ~ token_extraction_total.
Proof.
  intros H.
  destruct (H backend_null alice anonymous [] "/api/auth/token/"
              ["/api/auth/login/"; "/api/auth/token/obtain/"]
              (json_response 200 JNull) JNull eq_refl (Forall_nil_2 _)
              eq_refl eq_refl eq_refl)
    as (s' & Hrun & _).
  vm_compute in Hrun. discriminate Hrun.
Qed.

(** C7. If a successful response body contains neither a [user] field nor a
    [username] field, the committed user record is [{username: <submitted
    username>}]. *)
Theorem login_synthesizes_user backend creds s pre ep rest r data :
  login_endpoints = (pre ++ ep :: rest)%list -> all_fail backend creds pre ->
  backend (post ep creds) = Responds r ->
  ok r = true -> res_json r = Ret data -> data <> JNull ->
  field data "user" = None -> field data "username" = None ->
  exists s',
    login backend creds s = (Ret tt, s') /\
    user s' = JObj [("username", JStr (username creds))].
Proof.
  intros Heps Hpre Hr Hok Hj Hd Hu Hn.
  pose proof (winning_response backend creds ep r data Hr Hok Hj Hd) as Hw.
  exists (committed data creds (sent ep creds (sent_all pre creds s))).
  split.
  - unfold login. rewrite Heps.
    apply (loop_winner backend creds Login pre ep rest None s data Hpre Hw).
  - simpl. unfold user_of. rewrite Hu, Hn. reflexivity.
Qed.

Lemma login_synthesizes_user_witness :
  exists s',
    login (backend_at "/api/auth/token/" (json_response 200 body_token_only)) alice anonymous
      = (Ret tt, s') /\
    user s' = JObj [("username", JStr "alice")].
Proof.
  apply (login_synthesizes_user
           (backend_at "/api/auth/token/" (json_response 200 body_token_only))
           alice anonymous [] "/api/auth/token/"
           ["/api/auth/login/"; "/api/auth/token/obtain/"]
           (json_response 200 body_token_only) body_token_only);
    [reflexivity|constructor|reflexivity|reflexivity|reflexivity|discriminate
    |reflexivity|reflexivity].
Defined.

(** ** Storage *)

Lemma keys_differ : USER_KEY <> TOKEN_KEY.
Proof. discriminate. Qed.

Lemma init_accessible st :
  accessible st = true ->
  AuthProvider_init st =
    (Ret (match items st !! TOKEN_KEY with Some t => JStr t | None => JNull end,
          match items st !! USER_KEY with
          | Some raw =>
              if String.eqb raw EmptyString then JNull
              else match JSON_parse raw with Ret v => v | Throw _ => JNull end
          | None => JNull
          end), st).
Proof.
  intros Hacc.
  unfold AuthProvider_init, init_token, init_user, try_catch, bind, getItem, lift, ret.
  repeat (rewrite Hacc; cbv beta iota zeta).
  destruct (items st !! USER_KEY) as [raw|]; [|reflexivity].
  destruct (String.eqb raw EmptyString); [reflexivity|]. cbv beta iota zeta delta [negb].
  destruct (JSON_parse raw); reflexivity.
Qed.

Lemma init_denied st :
  accessible st = false -> AuthProvider_init st = (Ret (JNull, JNull), st).
Proof.
  intros Hacc.
  unfold AuthProvider_init, init_token, init_user, try_catch, bind, getItem, lift, ret.
  repeat (rewrite Hacc; cbv beta iota zeta). reflexivity.
Qed.

(** C9. Session initialisation never fails and leaves the storage as it is:
    when the storage cannot be accessed, when a key is missing, and when the
    stored user record does not parse, the value is [null]; with no entry at
    all the session is the anonymous one. *)
Theorem init_never_fails st :
  (exists t u, AuthProvider_init st = (Ret (t, u), st)) /\
  (accessible st = false -> AuthProvider_init st = (Ret (JNull, JNull), st)) /\
  (items st !! TOKEN_KEY = None -> exists u, AuthProvider_init st = (Ret (JNull, u), st)) /\
  (items st !! USER_KEY = None -> exists t, AuthProvider_init st = (Ret (t, JNull), st)) /\
  (forall raw e, items st !! USER_KEY = Some raw -> JSON_parse raw = Throw e ->
     exists t, AuthProvider_init st = (Ret (t, JNull), st)) /\
  (items st = ∅ -> AuthProvider_init st = (Ret (JNull, JNull), st)).
Proof.
  destruct (accessible st) eqn:Hacc.
  - rewrite (init_accessible st Hacc).
    split; [|split; [|split; [|split; [|split]]]].
    + eauto.
    + discriminate.
    + intros ->. eauto.
    + intros ->. eauto.
    + intros raw e -> ->. destruct (String.eqb raw EmptyString); eauto.
    + intros ->. rewrite !lookup_empty. reflexivity.
  - rewrite (init_denied st Hacc).
    split; [|split; [|split; [|split; [|split]]]]; eauto.
Qed.

Lemma init_never_fails_witness :
  AuthProvider_init empty_storage = (Ret (JNull, JNull), empty_storage).
Proof.
  apply (proj2 (proj2 (proj2 (proj2 (proj2 (init_never_fails empty_storage)))))).
  reflexivity.
Defined.











(** ** The session invariant *)

Lemma user_of_present data creds : data <> JNull -> user_of data creds <> JNull.
Proof.
  intros _. unfold user_of.
  destruct (field data "user") as [[]|]; simpl; try discriminate;
    destruct (truthy_opt (field data "username")); discriminate.
Qed.

Lemma winner_not_null o data : winner o = Some data -> data <> JNull.
Proof.
  unfold winner. destruct o as [r|]; [|discriminate].
  destruct (ok r); [|discriminate].
  destruct (res_json r) as [[]|]; intros H; inversion H; discriminate.
Qed.

Lemma run_outcome op backend creds s :
  (exists data, data <> JNull /\
     exists s1, run op backend creds s = (Ret tt, committed data creds s1)) \/
  (exists m s', run op backend creds s = (Throw m, s') /\
     token s' = token s /\ user s' = user s).
Proof.
  rewrite run_loop.
  destruct (loop_outcome backend creds (endpoints_of op))
    as [Hall|(pre & ep & rest & data & -> & Hpre & Hw)].
  - right. rewrite (loop_all_fail _ _ _ _ _ _ Hall).
    eexists _, _. split; [reflexivity|]. apply sent_all_session.
  - left. exists data. split; [eapply winner_not_null; eassumption|].
    rewrite (loop_winner _ _ _ _ _ _ _ _ _ Hpre Hw). eauto.
Qed.

(** C1, as amended. From a session that has no token without a user (the
    anonymous one in particular), [login], [signup] and [logout] only lead to
    sessions that have a user whenever they have a token; and after every
    successful [login] or [signup] the user record is present, while the
    token is absent when the response carries none. *)
Theorem session_user_invariant s0 s :
  (user s0 = JNull -> token s0 = JNull) -> reachable s0 s ->
  (user s = JNull -> token s = JNull) /\
  (forall op backend creds s', run op backend creds s = (Ret tt, s') -> user s' <> JNull).
Proof.
  intros H0 Hreach. split.
  - induction Hreach as [|op backend creds s o s' _ IH Hrun|s o s' _ IH Hout].
    + exact H0.
    + destruct (run_outcome op backend creds s)
        as [(data & Hd & s1 & E)|(m & s2 & E & Ht & Hu)];
        rewrite E in Hrun; injection Hrun as _ <-.
      * intros Hnull. simpl in Hnull. destruct (user_of_present data creds Hd Hnull).
      * rewrite Ht, Hu. exact IH.
    + injection Hout as _ <-. reflexivity.
  - intros op backend creds s' Hrun.
    destruct (run_outcome op backend creds s)
      as [(data & Hd & s1 & E)|(m & s2 & E & _)];
      rewrite E in Hrun; [|discriminate].
    injection Hrun as <-. apply user_of_present, Hd.
Qed.

Lemma session_user_invariant_witness :
  (user (snd (login (backend_at "/api/auth/token/" (json_response 200 body_empty))
                alice anonymous)) = JNull ->
   token (snd (login (backend_at "/api/auth/token/" (json_response 200 body_empty))
                 alice anonymous)) = JNull) /\
  (forall op backend creds s',
     run op backend creds
       (snd (login (backend_at "/api/auth/token/" (json_response 200 body_empty))
               alice anonymous)) = (Ret tt, s') -> user s' <> JNull).
Proof.
  apply (session_user_invariant anonymous).
  - reflexivity.
  - apply (reach_run anonymous Login
             (backend_at "/api/auth/token/" (json_response 200 body_empty))
             alice anonymous (Ret tt)).
    + apply reach_start.
    + reflexivity.
Defined.

(** C1 as stated fails: a success body without a token leaves a user
    without a token. *)
Lemma user_without_token : ~ session_all_or_nothing.
Proof.
  intros H.
  destruct (H (snd (login (backend_at "/api/auth/token/" (json_response 200 body_empty))
                     alice anonymous))) as [[Ht _]|[_ Hu]].
  - apply (reach_run anonymous Login
             (backend_at "/api/auth/token/" (json_response 200 body_empty))
             alice anonymous (Ret tt)); [apply reach_start|reflexivity].
  - apply Ht. reflexivity.
  - discriminate Hu.
Qed.

(** ** [signup] against [login] *)



(** ** HTTP 404 *)

Lemma last_recorded_from op backend creds rest le m :
  last_recorded op backend creds rest le = Some m ->
  (le = Some m /\ Forall (fun ep => records op ep (backend (post ep creds)) = None) rest) \/
  (exists ep, In ep rest /\ records op ep (backend (post ep creds)) = Some m).
Proof.
  intros H.
  destruct (last_recorded_cases op backend creds rest le)
    as [[Hl Hnone]|(pre & ep & rest' & m' & -> & Hm & _ & Hl)].
  - left. split; [congruence|assumption].
  - right. exists ep. split; [apply in_elt|congruence].
Qed.

(** C4, as amended. When a candidate answers 404 (the candidates before it
    having failed), [login] and [signup] go on with the remaining candidates,
    holding [Not found: <path>] as the latest error, and a request is sent to
    the next candidate. If the operation then fails, the surfaced message is
    the one recorded by a later candidate, or this 404's message when no
    later candidate recorded any. Every candidate of [signup] that fails
    records a message, so there a 404 surfaces only from the last candidate. *)
Theorem not_found_falls_through op backend creds s pre ep rest :
  endpoints_of op = (pre ++ ep :: rest)%list ->
  all_fail backend creds pre ->
  not_found (backend (post ep creds)) ->
  run op backend creds s
  = loop op backend creds rest (Some ("Not found: " +:+ ep))
      (sent ep creds (sent_all pre creds s)) /\
  (forall ep' rest', rest = ep' :: rest' ->
     In (post ep' creds) (requests (snd (run op backend creds s)))) /\
  (forall m s', run op backend creds s = (Throw m, s') ->
     (m = "Not found: " +:+ ep /\
      Forall (fun ep' => records op ep' (backend (post ep' creds)) = None) rest) \/
     (exists ep', In ep' rest /\ records op ep' (backend (post ep' creds)) = Some m)) /\
  (op = Signup -> rest <> [] ->
   forall m s', run op backend creds s = (Throw m, s') ->
     exists ep', In ep' rest /\ records op ep' (backend (post ep' creds)) = Some m).
Proof.
  intros Heps Hpre Hnf.
  destruct (not_found_fails op ep _ Hnf) as [Hw Hrec].
  assert (Hrun : run op backend creds s
                 = loop op backend creds rest (Some ("Not found: " +:+ ep))
                     (sent ep creds (sent_all pre creds s))).
  { rewrite run_loop, Heps, loop_skips by assumption.
    rewrite loop_cons, Hw, Hrec. reflexivity. }
  assert (Hthrow : forall m s', run op backend creds s = (Throw m, s') ->
            last_recorded op backend creds rest (Some ("Not found: " +:+ ep)) = Some m).
  { intros m s' H. rewrite Hrun in H.
    pose proof (loop_throws _ _ _ _ _ _ _ _ H) as Hall.
    rewrite (loop_all_fail _ _ _ _ _ _ Hall) in H. injection H as H _.
    destruct (last_recorded op backend creds rest (Some ("Not found: " +:+ ep))) as [e|] eqn:E.
    - simpl in H. congruence.
    - destruct (last_recorded_cases op backend creds rest (Some ("Not found: " +:+ ep)))
        as [[Hl _]|(? & ? & ? & ? & _ & _ & _ & Hl)]; congruence. }
  split; [exact Hrun|]. split; [|split].
  - intros ep' rest' ->. rewrite Hrun, loop_cons.
    destruct (winner (backend (post ep' creds))) as [data|].
    + simpl. apply in_or_app. right. left. reflexivity.
    + destruct (loop_outcome backend creds rest')
        as [Hall|(pre' & ep2 & rest2 & data & -> & Hpre' & Hw')].
      * rewrite (loop_all_fail _ _ _ _ _ _ Hall). simpl.
        rewrite sent_all_requests. simpl.
        apply in_or_app. left. apply in_or_app. right. left. reflexivity.
      * rewrite (loop_winner _ _ _ _ _ _ _ _ _ Hpre' Hw'). simpl.
        rewrite sent_all_requests. simpl.
        apply in_or_app. left. apply in_or_app. left.
        apply in_or_app. right. left. reflexivity.
  - intros m s' H. specialize (Hthrow m s' H).
    destruct (last_recorded_from _ _ _ _ _ _ Hthrow) as [[Hm Hnone]|Hex].
    + left. split; [congruence|assumption].
    + right. exact Hex.
  - intros -> Hrest m s' H. specialize (Hthrow m s' H).
    destruct (last_recorded_from _ _ _ _ _ _ Hthrow) as [[_ Hnone]|Hex]; [|exact Hex].
    destruct rest as [|ep' rest']; [congruence|].
    inversion Hnone as [|? ? Habs _]. discriminate Habs.
Qed.

Lemma not_found_falls_through_witness :
  run Login backend_broken alice anonymous
  = loop Login backend_broken alice ["/api/auth/login/"; "/api/auth/token/obtain/"]
      (Some "Not found: /api/auth/token/")
      (sent "/api/auth/token/" alice (sent_all [] alice anonymous)).
Proof.
  apply (not_found_falls_through Login backend_broken alice anonymous []
           "/api/auth/token/" ["/api/auth/login/"; "/api/auth/token/obtain/"]).
  - reflexivity.
  - constructor.
  - eexists. split; reflexivity.
Defined.

(** C4 as stated fails for [login]: the first candidate answers 404, the
    other two answer 500 with an empty body and record nothing, and the
    surfaced message is the first candidate's. *)
Lemma first_not_found_surfaces : ~ (forall op, not_found_never_surfaces op).
Proof.
  intros H.
  destruct (H Login backend_broken alice anonymous []
              "/api/auth/token/" ["/api/auth/login/"; "/api/auth/token/obtain/"]
              "Not found: /api/auth/token/"
              (snd (run Login backend_broken alice anonymous)))
    as (ep' & Hin & Hrec).
  - reflexivity.
  - discriminate.
  - eexists. split; reflexivity.
  - reflexivity.
  - destruct Hin as [<-|[<-|[]]]; vm_compute in Hrec; discriminate Hrec.
Qed.

(** * Further properties of the session manager *)

Lemma run_throw_keeps_session op backend creds s m s' :
  run op backend creds s = (Throw m, s') -> token s' = token s /\ user s' = user s.
Proof.
  intros H. rewrite run_loop in H.
  pose proof (loop_throws _ _ _ _ _ _ _ _ H) as Hall.
  rewrite (loop_all_fail _ _ _ _ _ _ Hall) in H.
  injection H as _ <-. apply sent_all_session.
Qed.

Lemma run_throw_message op backend creds s pre final m s' :
  endpoints_of op = (pre ++ [final])%list ->
  run op backend creds s = (Throw m, s') ->
  latest (last_recorded op backend creds pre None)
    (records op final (backend (post final creds))) = Some m \/
  (latest (last_recorded op backend creds pre None)
     (records op final (backend (post final creds))) = None
   /\ m = generic_message op).
Proof.
  intros Heps H. rewrite run_loop in H.
  pose proof (loop_throws _ _ _ _ _ _ _ _ H) as Hall.
  rewrite (loop_all_fail _ _ _ _ _ _ Hall), Heps, last_recorded_app in H.
  injection H as H _.
  destruct (latest _ _) as [e|];
    simpl in H; [left; congruence|right; split; congruence].
Qed.


(** ** The candidate loop of [login] and [signup] *)

Lemma sent_all_app pre rest creds s :
  sent_all (pre ++ rest) creds s = sent_all rest creds (sent_all pre creds s).
Proof.
  revert s. induction pre as [|ep pre IH]; intros s; [reflexivity|]. simpl. apply IH.
Qed.

Lemma sent_all_state eps creds s :
  sent_all eps creds s
  = {| token := token s; user := user s;
       requests := requests s ++ map (fun ep => post ep creds) eps |}.
Proof.
  destruct (sent_all_session creds eps s) as [Ht Hu].
  pose proof (sent_all_requests creds eps s) as Hr.
  destruct (sent_all eps creds s); simpl in *. congruence.
Qed.

(** X1. In [login] and in [signup], the first candidate that answers with a
    successful status and a JSON body other than [null] decides: its token
    and user are committed, the candidates before it were each sent one
    request, in order, and the candidates after it are not contacted. *)
Theorem first_winner_commits op backend creds s pre ep rest r data :
  endpoints_of op = (pre ++ ep :: rest)%list -> all_fail backend creds pre ->
  backend (post ep creds) = Responds r ->
  ok r = true -> res_json r = Ret data -> data <> JNull ->
  run op backend creds s =
    (Ret tt, {| token := token_of data; user := user_of data creds;
                requests := requests s ++ map (fun e => post e creds) (pre ++ [ep]) |}).
Proof.
  intros Heps Hpre Hr Hok Hj Hd.
  pose proof (winning_response backend creds ep r data Hr Hok Hj Hd) as Hw.
  rewrite run_loop, Heps, (loop_winner backend creds op pre ep rest None s data Hpre Hw).
  unfold committed. f_equal. f_equal.
  change (sent ep creds (sent_all pre creds s))
    with (sent_all [ep] creds (sent_all pre creds s)).
  rewrite <- sent_all_app, sent_all_requests. reflexivity.
Qed.

Lemma first_winner_commits_witness :
  run Signup (backend_at "/api/auth/register/" (json_response 201 body_full)) alice signed_in =
    (Ret tt, {| token := JStr "abc123"; user := JObj [("username", JStr "alice")];
                requests := [post "/api/auth/signup/" alice;
                             post "/api/auth/register/" alice] |}).
Proof.
  apply (first_winner_commits Signup
           (backend_at "/api/auth/register/" (json_response 201 body_full))
           alice signed_in ["/api/auth/signup/"] "/api/auth/register/" []
           (json_response 201 body_full) body_full);
    [reflexivity|repeat constructor|reflexivity|reflexivity|reflexivity|discriminate].
Defined.

Lemma take_past_prefix {A} (pre : list A) x rest :
  take (S (length pre)) (pre ++ x :: rest) = (pre ++ [x])%list.
Proof. induction pre as [|y pre IH]; simpl; [reflexivity|]. f_equal. exact IH. Qed.

(** X2. Whatever the backend answers, [login] and [signup] send their
    requests to a non-empty initial segment of the candidate list, in order
    and one request per candidate, each a POST of the credentials; when the
    operation throws, every candidate was tried. *)
Theorem requests_follow_candidates op backend creds s :
  exists k,
    (1 <= k <= length (endpoints_of op))%nat /\
    requests (snd (run op backend creds s))
    = (requests s ++ map (fun e => post e creds) (take k (endpoints_of op)))%list /\
    (forall m, fst (run op backend creds s) = Throw m -> k = length (endpoints_of op)).
Proof.
  rewrite run_loop.
  destruct (loop_outcome backend creds (endpoints_of op))
    as [Hall|(pre & ep & rest & data & E & Hpre & Hw)].
  - exists (length (endpoints_of op)).
    rewrite (loop_all_fail _ _ _ _ _ _ Hall). simpl.
    rewrite sent_all_requests, firstn_all.
    split; [destruct op; simpl; lia|]. split; [reflexivity|]. reflexivity.
  - exists (S (length pre)).
    rewrite E, (loop_winner _ _ _ _ _ _ _ _ _ Hpre Hw). simpl.
    rewrite sent_all_requests, take_past_prefix, map_app, app_assoc.
    split; [rewrite length_app; simpl; lia|]. split; [reflexivity|]. discriminate.
Qed.

Lemma requests_follow_candidates_witness :
  exists k,
    (1 <= k <= 3)%nat /\
    requests (snd (run Login backend_rejects alice anonymous))
    = map (fun e => post e alice) (take k login_endpoints) /\
    (forall m, fst (run Login backend_rejects alice anonymous) = Throw m -> k = 3%nat).
Proof. exact (requests_follow_candidates Login backend_rejects alice anonymous). Defined.

(** X3. When no candidate wins and the last candidate records a message,
    that message is the one thrown, whatever the earlier candidates
    answered: a rejection by an earlier candidate is overwritten. *)
Theorem last_candidate_decides op backend creds s pre final m :
  endpoints_of op = (pre ++ [final])%list ->
  all_fail backend creds (endpoints_of op) ->
  records op final (backend (post final creds)) = Some m ->
  run op backend creds s = (Throw m, sent_all (endpoints_of op) creds s).
Proof.
  intros Heps Hall Hrec.
  rewrite run_loop, (loop_all_fail _ _ _ _ _ _ Hall). f_equal. f_equal.
  rewrite Heps, last_recorded_app. simpl. rewrite Hrec. reflexivity.
Qed.

Lemma last_candidate_decides_witness :
  run Login backend_rejects alice anonymous
  = (Throw "Not found: /api/auth/token/obtain/", sent_all login_endpoints alice anonymous).
Proof.
  apply (last_candidate_decides Login backend_rejects alice anonymous
           ["/api/auth/token/"; "/api/auth/login/"] "/api/auth/token/obtain/");
    [reflexivity|repeat constructor|reflexivity].
Defined.

(** X4. When [signup] throws, the message is the one its last candidate,
    [/api/auth/register/], recorded: the generic [Signup failed] is never
    used, and what [/api/auth/signup/] answered is not shown. *)
Theorem signup_surfaces_register backend creds s m s' :
  signup backend creds s = (Throw m, s') ->
  m = signup_message "/api/auth/register/" (backend (post "/api/auth/register/" creds)).
Proof.
  intros H. change (signup backend creds s) with (run Signup backend creds s) in H.
  destruct (run_throw_message Signup backend creds s ["/api/auth/signup/"]
              "/api/auth/register/" m s' eq_refl H) as [E|[E _]];
    simpl in E; unfold signup_records in E; congruence.
Qed.

Lemma signup_surfaces_register_witness :
  "Not found: /api/auth/register/"
  = signup_message "/api/auth/register/" (backend_taken (post "/api/auth/register/" alice)).
Proof.
  apply (signup_surfaces_register backend_taken alice anonymous
           "Not found: /api/auth/register/" (snd (signup backend_taken alice anonymous))).
  reflexivity.
Defined.

(** ** [logout] and the persistence effects *)

(** X5. [logout] clears token and user whatever the session was and sends
    no request; the effects that follow it remove both storage entries (also
    from a storage whose quota is exhausted), so that a reload starts
    anonymous. *)
Theorem logout_then_reload s st :
  accessible st = true ->
  logout s = (Ret tt, {| token := JNull; user := JNull; requests := requests s |}) /\
  exists st',
    persist (token (snd (logout s))) (user (snd (logout s))) st = (Ret tt, st') /\
    items st' = delete USER_KEY (delete TOKEN_KEY (items st)) /\
    AuthProvider_init st' = (Ret (JNull, JNull), st').
Proof.
  intros Hacc. split; [reflexivity|].
  unfold persist, effect_token, effect_user, try_catch, bind, removeItem. simpl.
  repeat (rewrite ?Hacc; cbv beta iota zeta delta [accessible]).
  eexists. split; [reflexivity|]. split; [reflexivity|].
  rewrite init_accessible by reflexivity. cbv beta iota delta [items].
  rewrite (lookup_delete_ne _ USER_KEY TOKEN_KEY) by apply keys_differ.
  rewrite !lookup_delete_eq. reflexivity.
Qed.

Lemma logout_then_reload_witness :
  logout signed_in = (Ret tt, {| token := JNull; user := JNull; requests := [] |}) /\
  exists st',
    persist (token (snd (logout signed_in))) (user (snd (logout signed_in)))
      (bob_storage true) = (Ret tt, st') /\
    items st' = delete USER_KEY (delete TOKEN_KEY (items (bob_storage true))) /\
    AuthProvider_init st' = (Ret (JNull, JNull), st').
Proof. apply (logout_then_reload signed_in (bob_storage true)). reflexivity. Defined.

(** X6. The persistence effects never fail, whatever the values and the
    storage: an error of the storage is swallowed. A storage that denies
    access is left as it is. *)
Theorem persist_never_fails t u st :
  exists st',
    persist t u st = (Ret tt, st') /\
    accessible st' = accessible st /\
    (accessible st = false -> st' = st).
Proof.
  unfold persist, effect_token, effect_user, try_catch, bind, setItem, removeItem, ret.
  destruct (truthy t), (truthy u), (accessible st) eqn:Hacc, (full st) eqn:Hfull;
    repeat (rewrite ?Hacc, ?Hfull; cbn [accessible full]);
    eexists; (split; [reflexivity|split; [try reflexivity; assumption|congruence]]).
Qed.

(** X7. The persistence effects only touch the entries [auth_token] and
    [auth_user]: every other entry of the storage is kept. *)
Theorem persist_keeps_other_entries t u st k :
  k <> TOKEN_KEY -> k <> USER_KEY ->
  items (snd (persist t u st)) !! k = items st !! k.
Proof.
  intros Hk1 Hk2.
  unfold persist, effect_token, effect_user, try_catch, bind, setItem, removeItem, ret.
  destruct (truthy t), (truthy u), (accessible st) eqn:Hacc, (full st) eqn:Hfull;
    repeat (rewrite ?Hacc, ?Hfull; cbn [accessible full]);
    cbn [snd items];
    repeat (first [rewrite lookup_insert_ne by (intros E; symmetry in E; contradiction)
                  |rewrite lookup_delete_ne by (intros E; symmetry in E; contradiction)]);
    reflexivity.
Qed.

Lemma persist_keeps_other_entries_witness :
  items (snd (persist (JStr "abc123") JNull (bob_storage false))) !! "theme"
  = items (bob_storage false) !! "theme".
Proof.
  apply (persist_keeps_other_entries (JStr "abc123") JNull (bob_storage false) "theme");
    discriminate.
Defined.



(** X9. On a storage whose quota is exhausted, the effects of a truthy token
    and a truthy user write nothing and report nothing: the storage keeps
    what it held, which is what a reload will read. *)
Theorem full_storage_keeps_old_session t u st :
  accessible st = true -> full st = true -> truthy t = true -> truthy u = true ->
  persist t u st = (Ret tt, st).
Proof.
  intros Hacc Hfull Ht Hu.
  unfold persist, effect_token, effect_user, try_catch, bind, setItem, ret.
  rewrite Ht, Hu. repeat (rewrite ?Hacc, ?Hfull; cbn [accessible full]). reflexivity.
Qed.

Lemma full_storage_keeps_old_session_witness :
  persist (JStr "abc123") (JObj [("username", JStr "alice")]) (bob_storage true)
  = (Ret tt, bob_storage true).
Proof.
  apply (full_storage_keeps_old_session (JStr "abc123")
           (JObj [("username", JStr "alice")]) (bob_storage true)); reflexivity.
Defined.

Lemma run_requests op backend creds s :
  exists tried,
    (forall e, In e tried -> In e (endpoints_of op)) /\
    requests (snd (run op backend creds s))
    = (requests s ++ map (fun e => post e creds) tried)%list.
Proof.
  rewrite run_loop.
  destruct (loop_outcome backend creds (endpoints_of op))
    as [Hall|(pre & ep & rest & data & E & Hpre & Hw)].
  - exists (endpoints_of op). split; [auto|].
    rewrite (loop_all_fail _ _ _ _ _ _ Hall). simpl. apply sent_all_requests.
  - exists (pre ++ [ep])%list. split.
    + intros e He. rewrite E. apply in_app_or in He as [He|[<-|[]]];
        apply in_or_app; [left; exact He|right; left; reflexivity].
    + rewrite E, (loop_winner _ _ _ _ _ _ _ _ _ Hpre Hw). simpl.
      rewrite sent_all_requests, map_app, app_assoc. reflexivity.
Qed.

(** X10. Every request that [login] or [signup] adds to the log is a POST to
    one of the candidate paths of the operation, declared as JSON, whose body
    parses back to exactly [{username, password}] with the submitted strings,
    whatever characters they contain. *)
Theorem request_carries_credentials op backend creds s q :
  In q (requests (snd (run op backend creds s))) ->
  In q (requests s) \/
  (In (url q) (endpoints_of op) /\
   method q = "POST" /\
   content_type q = "application/json" /\
   JSON_parse (body q)
   = Ret (JObj [("username", JStr (username creds)); ("password", JStr (password creds))])).
Proof.
  intros Hq. destruct (run_requests op backend creds s) as (tried & Htried & E).
  rewrite E in Hq. apply in_app_or in Hq as [Hq|Hq]; [left; exact Hq|right].
  apply in_map_iff in Hq as (e & <- & He).
  split; [exact (Htried e He)|]. split; [reflexivity|]. split; [reflexivity|].
  simpl. apply JSON_parse_stringify. reflexivity.
Qed.

Lemma request_carries_credentials_witness :
  In (post "/api/auth/register/" alice) (requests signed_in) \/
  (In (url (post "/api/auth/register/" alice)) (endpoints_of Signup) /\
   method (post "/api/auth/register/" alice) = "POST" /\
   content_type (post "/api/auth/register/" alice) = "application/json" /\
   JSON_parse (body (post "/api/auth/register/" alice))
   = Ret (JObj [("username", JStr "alice"); ("password", JStr "pw")])).
Proof.
  apply (request_carries_credentials Signup backend_taken alice signed_in
           (post "/api/auth/register/" alice)).
  vm_compute. right. left. reflexivity.
Defined.

(** ** The forms *)

Lemma submit_of_eq op backend p :
  submit_of op backend p =
    match run op backend (Forms.typed p) (Forms.auth p) with
    | (Ret _, s') =>
        (Ret tt,
         {| Forms.auth := s';
            Forms.view := {| Forms.form_username := Forms.form_username (Forms.view p);
                             Forms.form_password := Forms.form_password (Forms.view p);
                             Forms.error := None; Forms.loading := false |};
            Forms.location := "/" |})
    | (Throw m, s') =>
        (Ret tt,
         {| Forms.auth := s';
            Forms.view := {| Forms.form_username := Forms.form_username (Forms.view p);
                             Forms.form_password := Forms.form_password (Forms.view p);
                             Forms.error := Some m; Forms.loading := false |};
            Forms.location := Forms.location p |})
    end.
Proof.
  destruct op; simpl;
    unfold SignIn.submit, SignUp.submit, try_finally, try_catch, bind,
      Forms.on_auth, Forms.setError, Forms.setLoading, Forms.nav; simpl.
  - destruct (login backend (Forms.typed p) (Forms.auth p)) as [[[]|m] s']; reflexivity.
  - destruct (signup backend (Forms.typed p) (Forms.auth p)) as [[[]|m] s']; reflexivity.
Qed.

(** X11. [submit] of the sign-in and of the sign-up form never throws and
    always ends with [loading] false and the typed values kept. When the
    operation fails, the form shows the message that was thrown, stays on its
    route and the session is as before; when it succeeds, the earlier error
    is cleared, the session is the committed one and the route is [/]. *)
Theorem submit_outcome op backend p :
  exists p',
    submit_of op backend p = (Ret tt, p') /\
    Forms.loading (Forms.view p') = false /\
    Forms.form_username (Forms.view p') = Forms.form_username (Forms.view p) /\
    Forms.form_password (Forms.view p') = Forms.form_password (Forms.view p) /\
    (forall m, fst (run op backend (Forms.typed p) (Forms.auth p)) = Throw m ->
       Forms.error (Forms.view p') = Some m /\
       Forms.location p' = Forms.location p /\
       token (Forms.auth p') = token (Forms.auth p) /\
       user (Forms.auth p') = user (Forms.auth p)) /\
    (fst (run op backend (Forms.typed p) (Forms.auth p)) = Ret tt ->
       Forms.error (Forms.view p') = None /\
       Forms.location p' = "/" /\
       Forms.auth p' = snd (run op backend (Forms.typed p) (Forms.auth p))).
Proof.
  rewrite submit_of_eq.
  destruct (run op backend (Forms.typed p) (Forms.auth p)) as [[[]|m] s'] eqn:E;
    eexists; (split; [reflexivity|]); cbn [Forms.view Forms.loading Forms.form_username
      Forms.form_password Forms.error Forms.location Forms.auth fst snd];
    (split; [reflexivity|]); (split; [reflexivity|]); (split; [reflexivity|]); split.
  - discriminate.
  - intros _. repeat split.
  - intros m' Hm. injection Hm as <-.
    repeat split;
      apply (run_throw_keeps_session op backend (Forms.typed p) (Forms.auth p) m s' E).
  - discriminate.
Qed.

Lemma submit_outcome_witness :
  exists p',
    submit_of Login backend_rejects (fresh_form anonymous "alice" "wrong") = (Ret tt, p') /\
    Forms.error (Forms.view p') = Some "Not found: /api/auth/token/obtain/" /\
    Forms.location p' = "/signin".
Proof.
  destruct (submit_outcome Login backend_rejects (fresh_form anonymous "alice" "wrong"))
    as (p' & Hrun & _ & _ & _ & Hfail & _).
  exists p'. split; [exact Hrun|].
  destruct (Hfail "Not found: /api/auth/token/obtain/" eq_refl) as (He & Hl & _).
  split; [exact He|exact Hl].
Defined.

(** ** The messages page *)

Lemma load_eq backend tok mounted v :
  Messages.load backend tok mounted v =
    let q := {| Messages.path := "/api/messages";
                Messages.authorization :=
                  if truthy tok then Some ("Bearer " +:+ to_String tok) else None |} in
    let log := (Messages.fetched v ++ [q])%list in
    let shown (l : list json) (e : option string) :=
      if mounted
      then {| Messages.messages := l; Messages.loading := false;
              Messages.error := e; Messages.fetched := log |}
      else {| Messages.messages := Messages.messages v; Messages.loading := true;
              Messages.error := None; Messages.fetched := log |} in
    (Ret tt,
     match backend q with
     | Fails e => shown (Messages.messages v) (Some e)
     | Responds r =>
         if ok r then
           match res_json r with
           | Ret (JArr l) => shown l None
           | Ret _ => shown [] None
           | Throw e => shown (Messages.messages v) (Some e)
           end
         else shown (Messages.messages v)
                (Some ("HTTP " +:+ print_num (status r) EmptyString))
     end).
Proof.
  unfold Messages.load, try_finally, try_catch, bind, Messages.fetch, lift, throw, ret,
    Messages.setLoading, Messages.setError, Messages.setMessages.
  cbn [Messages.messages Messages.loading Messages.error Messages.fetched].
  destruct (backend _) as [r|e]; [|destruct mounted; reflexivity].
  destruct (ok r); cbn [negb]; [|destruct mounted; reflexivity].
  destruct (res_json r) as [[]|]; destruct mounted; reflexivity.
Qed.

(** X12. [load] sends exactly one request, a GET of [/api/messages]; it
    carries the header [Authorization: Bearer <token>] when the token of the
    session is truthy, and no such header when the token is absent or the
    empty string. *)
Theorem load_request backend tok mounted v :
  Messages.fetched (snd (Messages.load backend tok mounted v))
  = (Messages.fetched v ++
     [{| Messages.path := "/api/messages";
         Messages.authorization :=
           if truthy tok then Some ("Bearer " +:+ to_String tok) else None |}])%list.
Proof.
  rewrite load_eq. cbv zeta. cbn [snd].
  destruct (backend _) as [r|e]; [|destruct mounted; reflexivity].
  destruct (ok r); [|destruct mounted; reflexivity].
  destruct (res_json r) as [[]|]; destruct mounted; reflexivity.
Qed.

(** X13. On a page that is still shown, [load] never throws and ends with
    [loading] false. An unsuccessful status shows [HTTP <status>], a failed
    request or an unreadable body shows the error's message, and in both
    cases the list is kept; a successful body that is an array becomes the
    list, and any other successful body empties the list without an
    error. *)
Theorem load_shown backend tok v :
  exists v',
    Messages.load backend tok true v = (Ret tt, v') /\
    Messages.loading v' = false /\
    match backend {| Messages.path := "/api/messages";
                     Messages.authorization :=
                       if truthy tok then Some ("Bearer " +:+ to_String tok) else None |}
    with
    | Fails e =>
        Messages.error v' = Some e /\ Messages.messages v' = Messages.messages v
    | Responds r =>
        if ok r then
          match res_json r with
          | Ret (JArr l) => Messages.error v' = None /\ Messages.messages v' = l
          | Ret _ => Messages.error v' = None /\ Messages.messages v' = []
          | Throw e =>
              Messages.error v' = Some e /\ Messages.messages v' = Messages.messages v
          end
        else
          Messages.error v' = Some ("HTTP " +:+ print_num (status r) EmptyString) /\
          Messages.messages v' = Messages.messages v
    end.
Proof.
  rewrite load_eq. cbv zeta. eexists. split; [reflexivity|].
  destruct (backend _) as [r|e]; [|repeat split].
  destruct (ok r); [|repeat split].
  destruct (res_json r) as [[]|]; repeat split.
Qed.

(** X14. When the page is no longer shown once the request has settled,
    [load] sets no state for its answer: whatever the backend answered, the
    list is the one before the call, no error is shown, and [loading] keeps
    the value [true] it was given at the start. *)
Theorem load_after_unmount backend tok v :
  exists log,
    Messages.load backend tok false v
    = (Ret tt, {| Messages.messages := Messages.messages v; Messages.loading := true;
                  Messages.error := None; Messages.fetched := log |}).
Proof.
  rewrite load_eq. cbv zeta. eexists.
  destruct (backend _) as [r|e]; [|reflexivity].
  destruct (ok r); [|reflexivity].
  destruct (res_json r) as [[]|]; reflexivity.
Qed.

(** ** The header *)

(** X15. After a [login] or [signup] that wins with a body whose [user]
    field is missing or [null], the header shows the signed-in view, labelled
    with the [username] of the body when that is truthy and with the
    submitted username otherwise. *)
Theorem header_after_success op backend creds s pre ep rest r data :
  endpoints_of op = (pre ++ ep :: rest)%list -> all_fail backend creds pre ->
  backend (post ep creds) = Responds r ->
  ok r = true -> res_json r = Ret data -> data <> JNull ->
  present (field data "user") = false ->
  AuthActions (snd (run op backend creds s))
  = Ret (SignedIn (if truthy_opt (field data "username")
                   then or_null (field data "username")
                   else JStr (username creds))).
Proof.
  intros Heps Hpre Hr Hok Hj Hd Hu.
  pose proof (winning_response backend creds ep r data Hr Hok Hj Hd) as Hw.
  rewrite run_loop, Heps, (loop_winner backend creds op pre ep rest None s data Hpre Hw).
  unfold AuthActions, committed. cbn [snd user]. unfold user_of. rewrite Hu.
  destruct (field data "username") as [n|]; [|reflexivity].
  cbn [truthy_opt]. destruct (truthy n) eqn:Hn; [|reflexivity].
  cbn. destruct n; try reflexivity. discriminate Hn.
Qed.

Lemma header_after_success_witness :
  AuthActions (snd (run Login
                      (backend_at "/api/auth/token/" (json_response 200 body_token_only))
                      alice anonymous))
  = Ret (SignedIn (JStr "alice")).
Proof.
  apply (header_after_success Login
           (backend_at "/api/auth/token/" (json_response 200 body_token_only))
           alice anonymous [] "/api/auth/token/"
           ["/api/auth/login/"; "/api/auth/token/obtain/"]
           (json_response 200 body_token_only) body_token_only);
    [reflexivity|constructor|reflexivity|reflexivity|reflexivity|discriminate|reflexivity].
Defined.

(** X16. [AuthActions] never throws, whatever the user of the session is:
    the name is only read from a truthy user. After [logout] it shows the
    links to the forms, and a [login] or [signup] that fails leaves what it
    shows as it was. *)
Theorem header_is_stable s :
  (exists v, AuthActions s = Ret v) /\
  AuthActions (snd (logout s)) = Ret SignedOut /\
  (forall op backend creds m s',
     run op backend creds s = (Throw m, s') -> AuthActions s' = AuthActions s).
Proof.
  split; [|split].
  - unfold AuthActions. destruct (user s) as [|[]| | | |]; cbn; eauto.
    destruct (negb (n =? 0)); eauto.
    destruct (negb (String.eqb s0 EmptyString)); eauto.
  - reflexivity.
  - intros op backend creds m s' H.
    destruct (run_throw_keeps_session op backend creds s m s' H) as [_ Hu].
    unfold AuthActions. rewrite Hu. reflexivity.
Qed.

Lemma header_is_stable_witness :
  AuthActions (snd (run Login backend_rejects alice signed_in)) = AuthActions signed_in.
Proof.
  exact (proj2 (proj2 (header_is_stable signed_in)) Login backend_rejects alice
           "Not found: /api/auth/token/obtain/"
           (snd (run Login backend_rejects alice signed_in)) eq_refl).
Defined.

(** ** Mounting the provider *)


Lemma mount_accessible f m :
  AuthProvider_mount {| accessible := true; full := f; items := m |} =
    let t := match m !! TOKEN_KEY with Some x => JStr x | None => JNull end in
    let u := match m !! USER_KEY with
             | Some raw =>
                 if String.eqb raw EmptyString then JNull
                 else match JSON_parse raw with Ret v => v | Throw _ => JNull end
             | None => JNull
             end in
    let m1 := if truthy t then m else delete TOKEN_KEY m in
    let m2 := if truthy u
              then (if f then m1 else <[USER_KEY := JSON_stringify u]> m1)
              else delete USER_KEY m1 in
    (Ret (t, u), {| accessible := true; full := f; items := m2 |}).
Proof.
  unfold AuthProvider_mount, bind. rewrite init_accessible by reflexivity.
  cbn [items fst snd]. cbv zeta.
  set (u := match m !! USER_KEY with Some _ => _ | None => _ end).
  unfold persist, effect_token, effect_user, try_catch, bind, setItem, removeItem, ret.
  destruct (m !! TOKEN_KEY) as [x|] eqn:Ht; cbn [truthy to_String].
  - destruct (String.eqb x EmptyString); cbn [negb accessible full items];
      destruct f, (truthy u); cbn [accessible full items];
      rewrite ?(insert_id m TOKEN_KEY x Ht); reflexivity.
  - cbn [accessible full items]. destruct (truthy u), f; reflexivity.
Qed.

(** X17. Mounting the provider never fails, and it drops a stored user
    record that does not parse: the session starts without a user, the entry
    [auth_user] is removed from the storage, and the stored token is read and
    kept. *)
Theorem mount_drops_corrupt_user st raw e tok :
  accessible st = true ->
  items st !! USER_KEY = Some raw -> JSON_parse raw = Throw e ->
  items st !! TOKEN_KEY = Some tok -> tok <> EmptyString ->
  exists st',
    AuthProvider_mount st = (Ret (JStr tok, JNull), st') /\
    items st' !! USER_KEY = None /\
    items st' !! TOKEN_KEY = Some tok.
Proof.
  intros Hacc Hu Hp Ht Hne. destruct st as [a f m]. simpl in *. subst a.
  rewrite mount_accessible. cbv zeta. rewrite Hu, Ht, Hp.
  assert (Htr : truthy (JStr tok) = true).
  { simpl. destruct (String.eqb_spec tok EmptyString); [contradiction|reflexivity]. }
  rewrite Htr. destruct (String.eqb raw EmptyString); cbn [truthy];
    eexists; (split; [reflexivity|]); cbn [items];
    rewrite lookup_delete_eq, (lookup_delete_ne _ USER_KEY TOKEN_KEY) by apply keys_differ;
    split; [reflexivity|exact Ht|reflexivity|exact Ht].
Qed.

Lemma mount_drops_corrupt_user_witness :
  exists st',
    AuthProvider_mount corrupt_storage = (Ret (JStr "abc123", JNull), st') /\
    items st' !! USER_KEY = None /\
    items st' !! TOKEN_KEY = Some "abc123".
Proof.
  apply (mount_drops_corrupt_user corrupt_storage "{oops" syntax_error "abc123");
    [reflexivity|reflexivity|reflexivity|reflexivity|discriminate].
Defined.

